(** * CreateCircle: points of the unit circle in triangle-strip order

    A shallow embedding of [CreateCircle] and [CreateCircle2] of
    [CreateCircle/main.cpp], and the properties of the two generators.

    - The functions are templates over [FloatType]; the embedding is generic
      over a type [F] with the operations the code uses ([FloatOps]).  The
      statements "in exact real arithmetic" instantiate it with [R]; the
      [float] of [main] is the instance [binary32].
    - [unsigned int] and [unsigned long long] values are integers of [Z] with
      the wrap-around of their width written out ([wrap32], [wrap64]); the
      [int] products that index the read-back of [CreateCircle2] are checked
      against the range of [int], a signed overflow being undefined behaviour.
    - The output array is a list of cells, a cell being [None] until a value
      is stored in it.  Every access is bounds-checked and logged. *)

From Stdlib Require Import ZArith Lia Reals Lra QArith.
From Stdlib Require Import Floats.SpecFloat.
From stdpp Require Import base list.
From Equations Require Import Equations.

Local Open Scope Z_scope.

(** ** Machine integers *)

(** [unsigned int]: 32 bits. *)
Definition wrap32 (z : Z) : Z := z mod 4294967296.

(** [unsigned long long]: 64 bits. *)
Definition wrap64 (z : Z) : Z := z mod 18446744073709551616.

(** The values of [unsigned int]. *)
Definition uint32 (z : Z) : Prop := 0 <= z < 4294967296.

(** The range of [int]. *)
Definition INT_MIN : Z := -2147483648.
Definition INT_MAX : Z := 2147483647.
Definition in_int (z : Z) : bool := (INT_MIN <=? z) && (z <=? INT_MAX).

(** [static_cast<int>] of an unsigned value: modular conversion. *)
Definition to_int (z : Z) : Z := (z + 2147483648) mod 4294967296 - 2147483648.

(** [IsOdd]: [number % 2 == 1], on an unsigned argument. *)
Definition IsOdd (number : Z) : bool := number mod 2 =? 1.

(** ** The floating-point type *)

Class FloatOps (F : Type) : Type := {
  f0 : F;                      (* 0.0f *)
  f1 : F;                      (* 1.0f *)
  fadd : F -> F -> F;
  fmul : F -> F -> F;
  fdiv : F -> F -> F;
  fneg : F -> F;
  fcos : F -> F;
  fsin : F -> F;
  f_of_uint : Z -> F;          (* FloatType(nrOfPoints) *)
  f_PI_MUL_2 : F               (* FloatType(PI_MUL_2) *)
}.

Declare Scope float_scope.
Delimit Scope float_scope with flt.
Infix "+" := fadd : float_scope.
Infix "*" := fmul : float_scope.
Infix "/" := fdiv : float_scope.
Notation "- a" := (fneg a) : float_scope.

(** ** Memory, events and results *)

Section Model.
Context {F : Type} {ops : FloatOps F}.

(** What a call does to the array, in order. *)
Inductive event : Type :=
| EvWrite (i : Z) (v : F)
| EvRead (i : Z)
| EvAssert (holds : bool).

(** The array behind [pointsOut] and the log of the call. *)
Record machine : Type := Machine {
  buf : list (option F);
  trace : list event
}.

(** Undefined behaviour the embedding detects. *)
Inductive ub : Type :=
| OutOfBounds (i : Z)
| UninitRead (i : Z)
| SignedOverflow.

Inductive result (A : Type) : Type :=
| Ok (a : A) (m : machine)
| Undef (u : ub) (m : machine).
Arguments Ok {A} a m.
Arguments Undef {A} u m.

Definition M (A : Type) : Type := machine -> result A.

Definition ret {A} (a : A) : M A := fun m => Ok a m.

Definition bind {A B} (c : M A) (k : A -> M B) : M B :=
  fun m => match c m with
           | Ok a m' => k a m'
           | Undef u m' => Undef u m'
           end.

Notation "'let*' x := c 'in' k" := (bind c (fun x => k))
  (at level 10, x name, c at level 100, k at level 200).
Notation "c >> k" := (bind c (fun _ => k))
  (at level 100, k at level 200, right associativity).

Definition in_bounds (i : Z) (m : machine) : bool :=
  (0 <=? i) && (i <? Z.of_nat (length (buf m))).

(** [pointsOut[i] = v]. *)
Definition store (i : Z) (v : F) : M unit := fun m =>
  if in_bounds i m
  then Ok tt (Machine (<[Z.to_nat i := Some v]> (buf m)) (trace m ++ [EvWrite i v]))
  else Undef (OutOfBounds i) m.

(** [pointsOut[i]] as a value. *)
Definition load (i : Z) : M F := fun m =>
  if in_bounds i m
  then match buf m !! Z.to_nat i with
       | Some (Some v) => Ok v (Machine (buf m) (trace m ++ [EvRead i]))
       | _ => Undef (UninitRead i) m
       end
  else Undef (OutOfBounds i) m.

(** [assert(cond)]: the outcome of the test is logged.  An assertion is the
    last statement of its branch, so that the log of the call is complete
    when the test fails; the caller stops on a log that holds a failed
    assertion ([failed_assertion], [main]). *)
Definition assert_ (cond : bool) : M unit := fun m =>
  Ok tt (Machine (buf m) (trace m ++ [EvAssert cond])).

(** Whether an assertion of the log failed: [assert] then aborts the
    program. *)
Definition failed_assertion (t : list event) : bool :=
  existsb (fun e => match e with EvAssert false => true | _ => false end) t.

(** [x = pointsOut[i] = v]: the store, then the value of [pointsOut[i]], the
    lvalue that the inner assignment yields. *)
Definition store_load (i : Z) (v : F) : M F := store i v >> load i.

(** The value of an [int] expression. *)
Definition int_val (z : Z) : M Z := fun m =>
  if in_int z then Ok z m else Undef SignedOverflow m.

(** ** Local variables *)

Record locals : Type := Locals {
  var_x : F;
  var_y : F;
  arrayIndex : Z
}.

(** ** Loops *)

(** [for (i = i0; i < bound; ++i) body].  The counter never exceeds [bound],
    so that [++i] does not wrap in the counter's type. *)
Equations for_up (body : locals -> M locals) (bound i : Z) (l : locals)
  (m : machine) : result locals by wf (Z.to_nat (bound - i)) lt :=
  for_up body bound i l m with Z_lt_dec i bound := {
    | left _ with body l m := {
        | Ok l' m' => for_up body bound (i + 1) l' m'
        | Undef u m' => Undef u m' }
    | right _ => Ok l m }.
Next Obligation. lia. Qed.

(** [for (i = i0; i > 0; i -= 2) body(i)]. *)
Equations for_down2 (body : Z -> locals -> M locals) (i : Z) (l : locals)
  (m : machine) : result locals by wf (Z.to_nat i) lt :=
  for_down2 body i l m with Z_gt_dec i 0 := {
    | left _ with body i l m := {
        | Ok l' m' => for_down2 body (i - 2) l' m'
        | Undef u m' => Undef u m' }
    | right _ => Ok l m }.
Next Obligation. lia. Qed.

(** ** The loop bodies *)

Local Open Scope float_scope.

(** The rotation of the current point by the angle increment:
    [xNew = cosIncr * x + sinIncr * y; y = sinIncr * -x + cosIncr * y; x = xNew]. *)
Definition rotate (cosIncr sinIncr : F) (l : locals) : locals :=
  let xNew := cosIncr * var_x l + sinIncr * var_y l in
  let y := sinIncr * - var_x l + cosIncr * var_y l in
  Locals xNew y (arrayIndex l).

(** Body of the loop of the odd branch: the rotated point, then its mirror
    image [(-x, y)]. *)
Definition body_odd (cosIncr sinIncr : F) (l : locals) : M locals :=
  let l := rotate cosIncr sinIncr l in
  store (arrayIndex l) (var_x l) >>
  store (wrap64 (arrayIndex l + 1)) (var_y l) >>
  store (wrap64 (arrayIndex l + 2)) (- var_x l) >>
  store (wrap64 (arrayIndex l + 3)) (var_y l) >>
  ret (Locals (var_x l) (var_y l) (wrap64 (arrayIndex l + 4))).

(** Body of the first loop of the even branch: the rotated point, then its
    mirror image [(x, -y)]. *)
Definition body_even (cosIncr sinIncr : F) (l : locals) : M locals :=
  let l := rotate cosIncr sinIncr l in
  store (arrayIndex l) (var_x l) >>
  store (wrap64 (arrayIndex l + 1)) (var_y l) >>
  store (wrap64 (arrayIndex l + 2)) (var_x l) >>
  store (wrap64 (arrayIndex l + 3)) (- var_y l) >>
  ret (Locals (var_x l) (var_y l) (wrap64 (arrayIndex l + 4))).

(** Body of the second loop of the even branch of [CreateCircle2]: the point
    of vertex [i] is read back and its images [(-x, y)] and [(-x, -y)] are
    stored.  [i * 2] and [i * 2 + 1] are [int] expressions. *)
Definition body_readback (i : Z) (l : locals) : M locals :=
  let* ix := int_val (i * 2)%Z in
  let* x := load ix in
  let* i2 := int_val (i * 2)%Z in
  let* iy := int_val (i2 + 1)%Z in
  let* y := load iy in
  store (arrayIndex l) (- x) >>
  store (wrap64 (arrayIndex l + 1)) y >>
  store (wrap64 (arrayIndex l + 2)) (- x) >>
  store (wrap64 (arrayIndex l + 3)) (- y) >>
  ret (Locals x y (wrap64 (arrayIndex l + 4))).

(** ** The two generators *)

Inductive exn : Type := invalid_argument.

(** A call either throws or runs; a run that returns gives the values of the
    local variables at the end (the functions themselves return [void]). *)
Inductive outcome : Type :=
| Throw (e : exn)
| Ran (r : result locals).

(** [angle]: one of the two quotients, chosen by [clockwise]. *)
Definition angle_of (nrOfPoints : Z) (clockwise : bool) : F :=
  if clockwise
  then f_PI_MUL_2 / f_of_uint nrOfPoints
  else - f_PI_MUL_2 / f_of_uint nrOfPoints.

(** The first point of a branch, [x = pointsOut[0] = vx; y = pointsOut[1] = vy],
    with [arrayIndex] on 2. *)
Definition first_point (vx vy : F) : M locals :=
  let* x := store_load 0 vx in
  let* y := store_load 1 vy in
  ret (Locals x y 2).

(** The odd branch, the same text in both functions. *)
Definition odd_branch (cosIncr sinIncr : F) (nrOfPoints halfNrOfPoints : Z)
  : M locals :=
  let* l := first_point f0 f1 in
  let* l := for_up (body_odd cosIncr sinIncr) halfNrOfPoints 0 l in
  assert_ (arrayIndex l =? wrap32 (nrOfPoints * 2))%Z >>
  ret l.

(** The end of the even branch, the same text in both functions: the
    left-most point. *)
Definition last_point (nrOfPoints : Z) (l : locals) : M locals :=
  store (arrayIndex l) (- f1) >>
  store (wrap64 (arrayIndex l + 1)) f0 >>
  assert_ (wrap64 (arrayIndex l + 2) =? wrap32 (nrOfPoints * 2))%Z >>
  ret l.

Definition CreateCircle (nrOfPoints : Z) (pointsOut : option (list (option F)))
  (clockwise : bool) : outcome :=
  match pointsOut with
  | None => Throw invalid_argument
  | Some array =>
    let angle := angle_of nrOfPoints clockwise in
    let cosIncr := fcos angle in
    let sinIncr := fsin angle in
    let halfNrOfPoints := (nrOfPoints / 2)%Z in
    Ran ((if IsOdd nrOfPoints
          then odd_branch cosIncr sinIncr nrOfPoints halfNrOfPoints
          else
            let* l := first_point f1 f0 in
            let* l := for_up (body_even cosIncr sinIncr)
                        (wrap32 (halfNrOfPoints - 1)) 0 l in
            last_point nrOfPoints l)
         (Machine array []))
  end.

Definition CreateCircle2 (nrOfPoints : Z) (pointsOut : option (list (option F)))
  (clockwise : bool) : outcome :=
  match pointsOut with
  | None => Throw invalid_argument
  | Some array =>
    let angle := angle_of nrOfPoints clockwise in
    let cosIncr := fcos angle in
    let sinIncr := fsin angle in
    let halfNrOfPoints := to_int (nrOfPoints / 2)%Z in
    Ran ((if IsOdd nrOfPoints
          then odd_branch cosIncr sinIncr nrOfPoints halfNrOfPoints
          else
            let* l := first_point f1 f0 in
            let* l := for_up (body_even cosIncr sinIncr)
                        (Z.quot halfNrOfPoints 2) 0 l in
            let startIndex :=
              (if negb (Z.rem halfNrOfPoints 2 =? 0)
               then halfNrOfPoints - 2 else halfNrOfPoints - 3)%Z in
            let* l := for_down2 body_readback startIndex l in
            last_point nrOfPoints l)
         (Machine array []))
  end.

(** ** What a call left behind *)

(** The stores of a log, in order: index and value. *)
Fixpoint write_log (t : list event) : list (Z * F) :=
  match t with
  | [] => []
  | EvWrite i v :: t => (i, v) :: write_log t
  | _ :: t => write_log t
  end.

(** The indices read. *)
Fixpoint read_log (t : list event) : list Z :=
  match t with
  | [] => []
  | EvRead i :: t => i :: read_log t
  | _ :: t => read_log t
  end.

(** The outcomes of the assertions. *)
Fixpoint assert_log (t : list event) : list bool :=
  match t with
  | [] => []
  | EvAssert b :: t => b :: assert_log t
  | _ :: t => assert_log t
  end.

(** The machine a call stopped in, whatever the reason; none when it threw
    before touching anything. *)
Definition final (o : outcome) : option machine :=
  match o with
  | Throw _ => None
  | Ran (Ok _ m) => Some m
  | Ran (Undef _ m) => Some m
  end.

Definition log_of (o : outcome) : list event :=
  match final o with Some m => trace m | None => [] end.

(** A point of the plane. *)
Definition point : Type := F * F.

(** Scalars stored one after the other, read as points: [x] then [y]. *)
Fixpoint pairs_of (vs : list F) : list point :=
  match vs with
  | x :: y :: vs => (x, y) :: pairs_of vs
  | _ => []
  end.

(** The points a call emitted, in the order of emission. *)
Definition emitted (o : outcome) : list point :=
  pairs_of (snd <$> write_log (log_of o)).

(** Vertex [k] of an array: the scalars at [2k] and [2k + 1]. *)
Definition vertex (a : list (option F)) (k : nat) : option point :=
  match a !! (2 * k)%nat, a !! (2 * k + 1)%nat with
  | Some (Some x), Some (Some y) => Some (x, y)
  | _, _ => None
  end.

(** ** The points of a run, as lists *)

(** One step of the rotation recurrence on a point. *)
Definition rot (c s : F) (p : point) : point :=
  (c * p.1 + s * p.2, s * - p.1 + c * p.2).

Fixpoint rot_n (k : nat) (c s : F) (p : point) : point :=
  match k with
  | O => p
  | S k => rot c s (rot_n k c s p)
  end.

(** Left-right and top-bottom mirror images. *)
Definition mirror_lr (p : point) : point := (- p.1, p.2).
Definition mirror_tb (p : point) : point := (p.1, - p.2).

(** The scalars of a list of points. *)
Definition flatten (pts : list point) : list F :=
  flat_map (fun p => [p.1; p.2]) pts.

(** The top point and the right-most point. *)
Definition top : point := (f0, f1).
Definition rightmost : point := (f1, f0).
Definition leftmost : point := (- f1, f0).

(** The odd branch after [k] iterations. *)
Definition odd_points (c s : F) (k : nat) : list point :=
  top :: flat_map (fun j => [rot_n j c s top; mirror_lr (rot_n j c s top)])
           (seq 1 k).

(** The first loop of the even branch after [k] iterations. *)
Definition even_points (c s : F) (k : nat) : list point :=
  rightmost ::
  flat_map (fun j => [rot_n j c s rightmost; mirror_tb (rot_n j c s rightmost)])
    (seq 1 k).

(** The read-back of [CreateCircle2] from the [m]-th rotated point down to
    the [(k+1)]-th. *)
Definition readback_points (c s : F) (m k : nat) : list point :=
  flat_map (fun j => [mirror_lr (rot_n j c s rightmost);
                      mirror_lr (mirror_tb (rot_n j c s rightmost))])
    (rev (seq (S k) (m - k))).

(** The indices the read-back reads, in order. *)
Definition readback_reads (m k : nat) : list Z :=
  flat_map (fun j => [(2 * Z.of_nat j - 1) * 2; (2 * Z.of_nat j - 1) * 2 + 1]%Z)
    (rev (seq (S k) (m - k))).

(** The angle increment as the code computes it. *)
Definition cosIncr_of (n : Z) (cw : bool) : F := fcos (angle_of n cw).
Definition sinIncr_of (n : Z) (cw : bool) : F := fsin (angle_of n cw).

(** All the points of [CreateCircle] for [n] points. *)
Definition half_points (n : Z) (cw : bool) : list point :=
  let c := cosIncr_of n cw in
  let s := sinIncr_of n cw in
  if IsOdd n
  then odd_points c s (Z.to_nat (n / 2))
  else even_points c s (Z.to_nat (n / 2 - 1)) ++ [leftmost].

(** The number of iterations of the two loops of the even branch of
    [CreateCircle2]. *)
Definition quarter_steps (n : Z) : nat := Z.to_nat (n / 2 / 2).
Definition readback_steps (n : Z) : nat := Z.to_nat ((n / 2 - 1) / 2).

(** All the points of [CreateCircle2] for [n] points, when no index
    overflows. *)
Definition quarter_points (n : Z) (cw : bool) : list point :=
  let c := cosIncr_of n cw in
  let s := sinIncr_of n cw in
  if IsOdd n
  then odd_points c s (Z.to_nat (n / 2))
  else even_points c s (quarter_steps n)
         ++ readback_points c s (readback_steps n) 0 ++ [leftmost].

(** The array [a0] once the scalars [out] have been stored from its
    beginning. *)
Definition filled (a0 : list (option F)) (out : list F) : list (option F) :=
  (Some <$> out) ++ drop (length out) a0.

(** Scalars numbered from [i]. *)
Fixpoint indexed (i : Z) (vs : list F) : list (Z * F) :=
  match vs with
  | [] => []
  | v :: vs => (i, v) :: indexed (i + 1)%Z vs
  end.

(** The machine after a call that started on [a0] stored [out] from index 0
    on, read at [rds] and evaluated the assertions [asr]. *)
Record tracks (a0 : list (option F)) (out : list F) (rds : list Z)
  (asr : list bool) (m : machine) : Prop := Tracks {
  tracks_buf : buf m = filled a0 out;
  tracks_writes : write_log (trace m) = indexed 0 out;
  tracks_reads : read_log (trace m) = rds;
  tracks_asserts : assert_log (trace m) = asr
}.

(** The local variables of a loop whose current point is [p]. *)
Definition frame (p : point) (ai : Z) : locals := Locals p.1 p.2 ai.

(** The iterations the loops of a branch performed: each one advances
    [arrayIndex] by 4, and [arrayIndex] starts from 2. *)
Definition iterations (l : locals) : Z := ((arrayIndex l - 2) / 4)%Z.

End Model.

Arguments Ok {F A} a m.
Arguments Undef {F A} u m.

(** ** Exact real arithmetic *)

#[export] Instance R_ops : FloatOps R := {|
  f0 := 0%R;
  f1 := 1%R;
  fadd := Rplus;
  fmul := Rmult;
  fdiv := Rdiv;
  fneg := Ropp;
  fcos := cos;
  fsin := sin;
  f_of_uint := IZR;
  f_PI_MUL_2 := (PI * 2)%R
|}.


(** An array of [k] cells that hold no value yet. *)
Definition fresh (F : Type) (k : Z) : list (option F) := replicate (Z.to_nat k) None.

(** ** Single precision *)

(** [float], the type [main] instantiates [CreateCircle] with: IEEE 754
    binary32.  The numbers and the operations [+], [*], [/] and unary [-],
    rounded to nearest even, are those of the Standard Library's [SpecFloat]
    at precision 24 and maximal exponent 128; every operation is rounded to
    [float], as on a machine that computes [float] expressions in single
    precision. *)
Definition binary32 : Type := spec_float.

(** [1.0f]. *)
Definition b32_one : binary32 := S754_finite false 8388608 (-23).

(** [float(PI_MUL_2)]: the nearest number to 2 pi, 13176795 * 2^-21. *)
Definition b32_PI_MUL_2 : binary32 := S754_finite false 13176795 (-21).

(** [cos] and [sin] come from the C library, not from this program.  They
    are modelled by the sum of the first 30 terms of their power series,
    computed in fixed point with 192 fractional bits, and rounded to the
    nearest number of [binary32]; on arguments of magnitude at most 8 the
    sum is within 2^-90 of the exact value.  The program calls them on
    [angle] only, whose magnitude is at most 2 pi for a count of 1 or more;
    on any other argument, an infinity or a NaN included, they are left
    unspecified and yield a NaN. *)
Definition fix_bits : Z := 192.

Definition b32_to_fix (x : binary32) : Z :=
  match x with
  | S754_finite s m e => Z.shiftl (if s then Zneg m else Zpos m) (fix_bits + e)
  | _ => 0
  end.

Definition b32_of_fix (v : Z) : binary32 :=
  binary_normalize 24 128 v (- fix_bits) false.

(** [term - term * x^2 / ((k+1) (k+2)) + ...], [terms] terms, in fixed point. *)
Fixpoint series (terms : nat) (x2 term k : Z) : Z :=
  match terms with
  | O => 0
  | S t =>
    term + series t x2 (- (term * x2 / 2 ^ fix_bits) / ((k + 1) * (k + 2))) (k + 2)
  end.

Definition in_series_range (x : binary32) : bool :=
  match x with
  | S754_finite _ _ _ => Z.abs (b32_to_fix x) <=? 8 * 2 ^ fix_bits
  | _ => false
  end.

Definition b32_cos (x : binary32) : binary32 :=
  match x with
  | S754_zero _ => b32_one
  | _ =>
    if in_series_range x
    then let v := b32_to_fix x in
         b32_of_fix (series 30 (v * v / 2 ^ fix_bits) (2 ^ fix_bits) 0)
    else S754_nan
  end.

Definition b32_sin (x : binary32) : binary32 :=
  match x with
  | S754_zero _ => x
  | _ =>
    if in_series_range x
    then let v := b32_to_fix x in
         b32_of_fix (series 30 (v * v / 2 ^ fix_bits) v 1)
    else S754_nan
  end.

#[export] Instance binary32_ops : FloatOps binary32 | 100 := {|
  f0 := S754_zero false;
  f1 := b32_one;
  fadd := SFadd 24 128;
  fmul := SFmul 24 128;
  fdiv := SFdiv 24 128;
  fneg := SFopp;
  fcos := b32_cos;
  fsin := b32_sin;
  f_of_uint := fun n => binary_normalize 24 128 n 0 false;
  f_PI_MUL_2 := b32_PI_MUL_2
|}.




(** ** Further definitions *)

(** The mirror image that the winding flag applies to every vertex. *)
Definition winding_mirror (n : Z) : R * R -> R * R :=
  if IsOdd n then mirror_lr else mirror_tb.

(** Vertex [k] of the regular polygon of [n] points, counted from the first
    point of the branch taken and in the direction of the winding flag. *)
Definition polygon_vertex (n : Z) (cw : bool) (k : nat) : R * R :=
  let a := (INR k * angle_of n cw)%R in
  if IsOdd n then (sin a, cos a) else (cos a, (- sin a)%R).

Definition polygon (n : Z) (cw : bool) : list (R * R) :=
  polygon_vertex n cw <$> seq 0 (Z.to_nat n).

Section Overrun_def.
Context {F : Type} {ops : FloatOps F}.

(** The reads of the first point on an array of [len] scalars: index 0 and
    index 1, as far as the array goes. *)
Definition first_reads (len : nat) : list Z := take len [0; 1].

(** A run that stored up to the end of the array [a0] and then stored one
    scalar further. *)
Definition overrun {A} (a0 : list (option F)) (r : result A) : Prop :=
  exists m out,
    r = Undef (OutOfBounds (Z.of_nat (length a0))) m
    /\ tracks a0 out (first_reads (length a0)) [] m
    /\ length out = length a0.

End Overrun_def.

(** ** The driver *)

Section Driver.
Context {F : Type} {ops : FloatOps F}.

(** The lines [main] prints: the message of a failed allocation, the heading
    and a line [x,y] for a point.  The text of the numbers is not modelled. *)
Inductive printed : Type :=
| AllocFailed (nrOfPoints : Z)
| Heading (nrOfPoints : Z)
| PointLine (x y : F).

(** How [main] ends: with a return value, in undefined behaviour, with an
    exception nothing catches, or in [abort] after a failed assertion. *)
Inductive ending : Type :=
| Exit (code : Z)
| Crash (u : ub)
| Uncaught (e : exn)
| Abort.

(** [for (unsigned long i = i0; i < bound; i += 2)
       cout << points[i] << "," << points[i + 1] << endl;]
    [bound] and [i] are even, so that [i + 1] and [i + 2] do not wrap. *)
Equations print_points (bound i : Z) (out : list printed) (m : @machine F)
  : list printed * option ub by wf (Z.to_nat (bound - i)) lt :=
  print_points bound i out m with Z_lt_dec i bound := {
    | left _ with load i m := {
        | Ok x m1 with load (i + 1) m1 := {
            | Ok y m2 => print_points bound (i + 2) (out ++ [PointLine x y]) m2
            | Undef u _ => (out, Some u) }
        | Undef u _ => (out, Some u) }
    | right _ => (out, None) }.
Next Obligation. lia. Qed.

(** [main].  [ULONG_MOD] is 2 to the width of [unsigned long]; [arg] is the
    value [strtoul] returns for [argv[1]], when there is one; [heap] is the
    largest number of [float]s [new] can provide.  [CreateCircle] takes the
    count as an [unsigned int] and [clockwise] by default; when its assertion
    fails the program aborts there, before the points are printed. *)
Definition main (ULONG_MOD heap : Z) (arg : option Z) : list printed * ending :=
  let nrOfPoints := match arg with Some v => v | None => 5 end in
  let size := (nrOfPoints * 2) mod ULONG_MOD in
  if heap <? size
  then ([AllocFailed nrOfPoints], Exit 1)
  else
    let out := [Heading nrOfPoints] in
    match CreateCircle (wrap32 nrOfPoints) (Some (fresh F size)) true with
    | Throw e => (out, Uncaught e)
    | Ran (Undef u _) => (out, Crash u)
    | Ran (Ok _ m) =>
      if failed_assertion (trace m)
      then (out, Abort)
      else
        match print_points size 0 out m with
        | (out', None) => (out', Exit 0)
        | (out', Some u) => (out', Crash u)
        end
    end.

(** The line of a point. *)
Definition line_of (p : @point F) : printed := PointLine p.1 p.2.

End Driver.

(** [IsOdd] at a signed integral type: [%] truncates towards zero. *)
Definition IsOdd_signed (number : Z) : bool := Z.rem number 2 =? 1.

(** * Properties *)

#[local] Ltac Zify.zify_post_hook ::= Z.to_euclidean_division_equations.

Section Basics.
Context {F : Type} {ops : FloatOps F}.

Lemma wrap64_small z : 0 <= z < 18446744073709551616 -> wrap64 z = z.
Proof. intros H. unfold wrap64. apply Z.mod_small. exact H. Qed.

Lemma wrap32_small z : 0 <= z < 4294967296 -> wrap32 z = z.
Proof. intros H. unfold wrap32. apply Z.mod_small. exact H. Qed.

Lemma to_int_small z : 0 <= z < 2147483648 -> to_int z = z.
Proof. intros H. unfold to_int. rewrite Z.mod_small; lia. Qed.

Lemma for_up_step (body : @locals F -> M locals) bound i l m :
  for_up body bound i l m =
  if Z_lt_dec i bound
  then match body l m with
       | Ok l' m' => for_up body bound (i + 1) l' m'
       | Undef u m' => Undef u m'
       end
  else Ok l m.
Proof.
  rewrite (for_up_equation_1 body bound i l m).
  destruct (Z_lt_dec i bound); simpl; [|reflexivity].
  destruct (body l m); reflexivity.
Qed.

Lemma for_down2_step (body : Z -> @locals F -> M locals) i l m :
  for_down2 body i l m =
  if Z_gt_dec i 0
  then match body i l m with
       | Ok l' m' => for_down2 body (i - 2) l' m'
       | Undef u m' => Undef u m'
       end
  else Ok l m.
Proof.
  rewrite (for_down2_equation_1 body i l m).
  destruct (Z_gt_dec i 0); simpl; [|reflexivity].
  destruct (body i l m); reflexivity.
Qed.

(** The logs of a log that grew. *)
Lemma write_log_app (t1 t2 : list (@event F)) :
  write_log (t1 ++ t2) = write_log t1 ++ write_log t2.
Proof. induction t1 as [|[] t1 IH]; simpl; rewrite ?IH; reflexivity. Qed.

Lemma read_log_app (t1 t2 : list (@event F)) :
  read_log (t1 ++ t2) = read_log t1 ++ read_log t2.
Proof. induction t1 as [|[] t1 IH]; simpl; rewrite ?IH; reflexivity. Qed.

Lemma assert_log_app (t1 t2 : list (@event F)) :
  assert_log (t1 ++ t2) = assert_log t1 ++ assert_log t2.
Proof. induction t1 as [|[] t1 IH]; simpl; rewrite ?IH; reflexivity. Qed.

Lemma indexed_app i (a b : list F) :
  indexed i (a ++ b) = indexed i a ++ indexed (i + Z.of_nat (length a)) b.
Proof.
  revert i. induction a as [|v a IH]; intros i; simpl.
  - f_equal. lia.
  - rewrite IH. do 3 f_equal. lia.
Qed.

Lemma indexed_fst_lt i (vs : list F) j v :
  In (j, v) (indexed i vs) -> i <= j < i + Z.of_nat (length vs).
Proof.
  revert i. induction vs as [|w vs IH]; intros i; simpl; [tauto|].
  intros [E|H]; [inversion E; lia|]. apply IH in H. lia.
Qed.

Lemma indexed_snd i (vs : list F) : snd <$> indexed i vs = vs.
Proof. revert i. induction vs as [|v vs IH]; intros i; simpl; [reflexivity|]. now rewrite IH. Qed.

Lemma indexed_length i (vs : list F) : length (indexed i vs) = length vs.
Proof. revert i. induction vs as [|v vs IH]; intros i; simpl; [reflexivity|]. now rewrite IH. Qed.

Lemma filled_length (a0 : list (option F)) out :
  (length out <= length a0)%nat -> length (filled a0 out) = length a0.
Proof.
  intros H. unfold filled. rewrite length_app, length_fmap, length_drop. lia.
Qed.

Lemma filled_snoc (a0 : list (option F)) out v :
  (length out < length a0)%nat ->
  <[length out := Some v]> (filled a0 out) = filled a0 (out ++ [v]).
Proof.
  intros H. unfold filled.
  rewrite insert_app_r_alt by (rewrite length_fmap; lia).
  rewrite length_fmap, Nat.sub_diag.
  destruct (lookup_lt_is_Some_2 a0 (length out) H) as [c Hc].
  rewrite (drop_S _ _ _ Hc). simpl.
  rewrite fmap_app, <- app_assoc. simpl.
  rewrite length_app. simpl. rewrite Nat.add_1_r. reflexivity.
Qed.

Lemma filled_lookup (a0 : list (option F)) out k v :
  out !! k = Some v -> filled a0 out !! k = Some (Some v).
Proof.
  intros H. unfold filled.
  rewrite lookup_app_l by (rewrite length_fmap; eapply lookup_lt_Some; eauto).
  rewrite list_lookup_fmap, H. reflexivity.
Qed.

Lemma filled_lookup_ge (a0 : list (option F)) out k :
  (length out <= k)%nat -> filled a0 out !! k = a0 !! k.
Proof.
  intros H. unfold filled.
  rewrite lookup_app_r by (rewrite length_fmap; lia).
  rewrite length_fmap, lookup_drop. f_equal. lia.
Qed.

Lemma bind_ok {A B} (c : M A) (k : A -> M B) (m m' : @machine F) a :
  c m = Ok a m' -> bind c k m = k a m'.
Proof. intros E. unfold bind. rewrite E. reflexivity. Qed.

Lemma tracks_start (a0 : list (option F)) : tracks a0 [] [] [] (Machine a0 []).
Proof. split; reflexivity. Qed.

(** A store at the end of what was stored so far. *)
Lemma store_tracks (a0 : list (option F)) (out : list F) rds asr m i v :
  tracks a0 out rds asr m ->
  i = Z.of_nat (length out) ->
  (length out < length a0)%nat ->
  exists m', store i v m = Ok tt m' /\ tracks a0 (out ++ [v]) rds asr m'.
Proof.
  intros [Hb Hw Hr Ha] -> Hlt.
  unfold store, in_bounds. rewrite Hb, filled_length by lia.
  destruct (0 <=? Z.of_nat (length out)) eqn:E1; [|lia].
  destruct (Z.of_nat (length out) <? Z.of_nat (length a0)) eqn:E2; [|lia].
  simpl. eexists; split; [reflexivity|].
  split; simpl.
  - rewrite Nat2Z.id. apply filled_snoc; assumption.
  - rewrite write_log_app, Hw, indexed_app. simpl. reflexivity.
  - rewrite read_log_app, Hr. simpl. apply app_nil_r.
  - rewrite assert_log_app, Ha. simpl. apply app_nil_r.
Qed.

(** A store past the end of the array. *)
Lemma store_out_of_bounds (a0 : list (option F)) (out : list F) rds asr m i v :
  tracks a0 out rds asr m ->
  (length out <= length a0)%nat ->
  Z.of_nat (length a0) <= i ->
  store i v m = Undef (OutOfBounds i) m.
Proof.
  intros [Hb _ _ _] Hle Hi. unfold store, in_bounds.
  rewrite Hb, filled_length by lia.
  destruct (i <? Z.of_nat (length a0)) eqn:E; [lia|].
  rewrite andb_false_r. reflexivity.
Qed.

(** A load of a scalar stored earlier. *)
Lemma load_tracks (a0 : list (option F)) (out : list F) rds asr m i k v :
  tracks a0 out rds asr m ->
  i = Z.of_nat k ->
  (length out <= length a0)%nat ->
  out !! k = Some v ->
  exists m', load i m = Ok v m' /\ tracks a0 out (rds ++ [i]) asr m'.
Proof.
  intros [Hb Hw Hr Ha] -> Hle Hk.
  pose proof (lookup_lt_Some _ _ _ Hk) as Hlt.
  unfold load, in_bounds. rewrite Hb, filled_length by lia.
  destruct (0 <=? Z.of_nat k) eqn:E1; [|lia].
  destruct (Z.of_nat k <? Z.of_nat (length a0)) eqn:E2; [|lia].
  simpl. rewrite Nat2Z.id, (filled_lookup _ _ _ _ Hk).
  eexists; split; [reflexivity|].
  split; simpl.
  - reflexivity.
  - rewrite write_log_app, Hw. simpl. apply app_nil_r.
  - rewrite read_log_app, Hr. reflexivity.
  - rewrite assert_log_app, Ha. simpl. apply app_nil_r.
Qed.

Lemma assert_tracks (a0 : list (option F)) (out : list F) rds asr m b :
  tracks a0 out rds asr m ->
  exists m', assert_ b m = Ok tt m' /\ tracks a0 out rds (asr ++ [b]) m'.
Proof.
  intros [Hb Hw Hr Ha]. eexists; split; [reflexivity|].
  split; simpl.
  - assumption.
  - rewrite write_log_app, Hw. simpl. apply app_nil_r.
  - rewrite read_log_app, Hr. simpl. apply app_nil_r.
  - rewrite assert_log_app, Ha. reflexivity.
Qed.

End Basics.

Section Loops.
Context {F : Type} {ops : FloatOps F}.

(** Rule for a counting loop whose body never fails while the invariant
    holds: the loop returns, and the invariant holds at the bound. *)
Lemma for_up_inv (Inv : nat -> @locals F -> machine -> Prop) body (K : nat) :
  (forall k l m, (k < K)%nat -> Inv k l m ->
     exists l' m', body l m = Ok l' m' /\ Inv (S k) l' m') ->
  forall d k l m, (k + d = K)%nat -> Inv k l m ->
    exists l' m',
      for_up body (Z.of_nat K) (Z.of_nat k) l m = Ok l' m' /\ Inv K l' m'.
Proof.
  intros Hbody. induction d as [|d IH]; intros k l m Hk HI.
  - rewrite for_up_step. destruct (Z_lt_dec _ _) as [Hlt|_]; [lia|].
    replace K with k by lia. eauto.
  - rewrite for_up_step. destruct (Z_lt_dec _ _) as [_|Hge]; [|lia].
    destruct (Hbody k l m ltac:(lia) HI) as (l' & m' & E & HI').
    rewrite E. replace (Z.of_nat k + 1) with (Z.of_nat (S k)) by lia.
    apply IH; [lia|assumption].
Qed.

(** Rule for the loop that walks the odd vertices down to vertex 1. *)
Lemma for_down2_inv (Inv : nat -> @locals F -> machine -> Prop) body :
  (forall k l m, Inv (S k) l m ->
     exists l' m', body (2 * Z.of_nat (S k) - 1) l m = Ok l' m' /\ Inv k l' m') ->
  forall k l m, Inv k l m ->
    exists l' m',
      for_down2 body (2 * Z.of_nat k - 1) l m = Ok l' m' /\ Inv O l' m'.
Proof.
  intros Hbody. induction k as [|k IH]; intros l m HI.
  - rewrite for_down2_step. destruct (Z_gt_dec _ _) as [Hgt|_]; [lia|]. eauto.
  - rewrite for_down2_step. destruct (Z_gt_dec _ _) as [_|Hle]; [|lia].
    destruct (Hbody k l m HI) as (l' & m' & E & HI').
    rewrite E. replace (2 * Z.of_nat (S k) - 1 - 2) with (2 * Z.of_nat k - 1) by lia.
    apply IH. assumption.
Qed.

Lemma flatten_app (p q : list (@point F)) : flatten (p ++ q) = flatten p ++ flatten q.
Proof. unfold flatten. apply flat_map_app. Qed.

Lemma flatten_length (p : list (@point F)) : length (flatten p) = (2 * length p)%nat.
Proof. induction p as [|a p IH]; simpl; [reflexivity|]. rewrite IH. lia. Qed.

Lemma pairs_of_flatten (p : list (@point F)) : pairs_of (flatten p) = p.
Proof. induction p as [|[x y] p IH]; simpl; [reflexivity|]. now rewrite IH. Qed.

Lemma flatten_lookup (p : list (@point F)) k q :
  p !! k = Some q ->
  flatten p !! (2 * k)%nat = Some q.1 /\ flatten p !! (2 * k + 1)%nat = Some q.2.
Proof.
  revert k. induction p as [|a p IH]; intros k H; [discriminate|].
  destruct k as [|k]; simpl in H.
  - inversion H; subst. split; reflexivity.
  - apply IH in H. replace (2 * S k)%nat with (S (S (2 * k))) by lia.
    replace (S (S (2 * k)) + 1)%nat with (S (S (2 * k + 1))) by lia.
    exact H.
Qed.

(** Four stores in a row at the end of what was stored so far, as in the
    three loop bodies. *)
Lemma store4_tracks (a0 : list (option F)) (out : list F) rds asr m ai v1 v2 v3 v4
  (l' : @locals F) :
  tracks a0 out rds asr m ->
  ai = Z.of_nat (length out) ->
  (length out + 4 <= length a0)%nat ->
  ai + 4 < 18446744073709551616 ->
  exists m',
    bind (store ai v1) (fun _ =>
    bind (store (wrap64 (ai + 1)) v2) (fun _ =>
    bind (store (wrap64 (ai + 2)) v3) (fun _ =>
    bind (store (wrap64 (ai + 3)) v4) (fun _ => ret l')))) m = Ok l' m'
    /\ tracks a0 (out ++ [v1; v2; v3; v4]) rds asr m'.
Proof.
  intros T Hai Hlen Hmax.
  rewrite !wrap64_small by lia.
  destruct (store_tracks _ _ _ _ _ ai v1 T Hai ltac:(lia)) as (m1 & E1 & T1).
  destruct (store_tracks _ _ _ _ _ (ai + 1) v2 T1
              ltac:(rewrite length_app; simpl; lia)
              ltac:(rewrite length_app; simpl; lia)) as (m2 & E2 & T2).
  destruct (store_tracks _ _ _ _ _ (ai + 2) v3 T2
              ltac:(rewrite !length_app; simpl; lia)
              ltac:(rewrite !length_app; simpl; lia)) as (m3 & E3 & T3).
  destruct (store_tracks _ _ _ _ _ (ai + 3) v4 T3
              ltac:(rewrite !length_app; simpl; lia)
              ltac:(rewrite !length_app; simpl; lia)) as (m4 & E4 & T4).
  exists m4. split.
  - unfold bind. rewrite E1, E2, E3, E4. reflexivity.
  - rewrite <- !app_assoc in T4. exact T4.
Qed.

(** Two stores in a row: one point. *)
Lemma store2_tracks (a0 : list (option F)) (out : list F) rds asr m ai v1 v2
  B (k : unit -> M B) :
  tracks a0 out rds asr m ->
  ai = Z.of_nat (length out) ->
  (length out + 2 <= length a0)%nat ->
  ai + 2 < 18446744073709551616 ->
  exists m',
    bind (store ai v1) (fun _ => bind (store (wrap64 (ai + 1)) v2) k) m = k tt m'
    /\ tracks a0 (out ++ [v1; v2]) rds asr m'.
Proof.
  intros T Hai Hlen Hmax.
  rewrite !wrap64_small by lia.
  destruct (store_tracks _ _ _ _ _ ai v1 T Hai ltac:(lia)) as (m1 & E1 & T1).
  destruct (store_tracks _ _ _ _ _ (ai + 1) v2 T1
              ltac:(rewrite length_app; simpl; lia)
              ltac:(rewrite length_app; simpl; lia)) as (m2 & E2 & T2).
  exists m2. split.
  - unfold bind. rewrite E1, E2. reflexivity.
  - rewrite <- !app_assoc in T2. exact T2.
Qed.

Lemma odd_points_S c s k :
  odd_points c s (S k) =
  odd_points c s k ++ [rot_n (S k) c s top; mirror_lr (rot_n (S k) c s top)].
Proof.
  unfold odd_points. rewrite seq_S, flat_map_app. simpl.
  rewrite ?app_nil_r. reflexivity.
Qed.

Lemma even_points_S c s k :
  even_points c s (S k) =
  even_points c s k
    ++ [rot_n (S k) c s rightmost; mirror_tb (rot_n (S k) c s rightmost)].
Proof.
  unfold even_points. rewrite seq_S, flat_map_app. simpl.
  rewrite ?app_nil_r. reflexivity.
Qed.

Lemma pair_flat_map_length {A} (f g : nat -> A) (l : list nat) :
  length (flat_map (fun j => [f j; g j]) l) = (2 * length l)%nat.
Proof. induction l as [|a l IH]; simpl; [reflexivity|]. rewrite IH. lia. Qed.

Lemma odd_points_length c s k : length (odd_points c s k) = (1 + 2 * k)%nat.
Proof. unfold odd_points. simpl. rewrite pair_flat_map_length, length_seq. reflexivity. Qed.

Lemma even_points_length c s k : length (even_points c s k) = (1 + 2 * k)%nat.
Proof. unfold even_points. simpl. rewrite pair_flat_map_length, length_seq. reflexivity. Qed.


Lemma rotate_frame c s p ai : rotate c s (frame p ai) = frame (rot c s p) ai.
Proof. reflexivity. Qed.

(** One iteration of the loop of the odd branch. *)
Lemma body_odd_tracks c s (a0 : list (option F)) pts rds p m :
  tracks a0 (flatten pts) rds [] m ->
  (2 * length pts + 4 <= length a0)%nat ->
  Z.of_nat (length pts) < 8589934592 ->
  exists m',
    body_odd c s (frame p (2 * Z.of_nat (length pts))) m
    = Ok (frame (rot c s p) (2 * Z.of_nat (length pts) + 4)) m'
    /\ tracks a0 (flatten (pts ++ [rot c s p; mirror_lr (rot c s p)])) rds [] m'.
Proof.
  intros T Hlen Hmax.
  unfold body_odd. rewrite rotate_frame. cbv zeta. simpl arrayIndex.
  rewrite (wrap64_small (_ + 4)) by lia.
  rewrite flatten_app. simpl flatten.
  apply store4_tracks; try assumption; rewrite ?flatten_length; lia.
Qed.

(** One iteration of the first loop of the even branch. *)
Lemma body_even_tracks c s (a0 : list (option F)) pts rds p m :
  tracks a0 (flatten pts) rds [] m ->
  (2 * length pts + 4 <= length a0)%nat ->
  Z.of_nat (length pts) < 8589934592 ->
  exists m',
    body_even c s (frame p (2 * Z.of_nat (length pts))) m
    = Ok (frame (rot c s p) (2 * Z.of_nat (length pts) + 4)) m'
    /\ tracks a0 (flatten (pts ++ [rot c s p; mirror_tb (rot c s p)])) rds [] m'.
Proof.
  intros T Hlen Hmax.
  unfold body_even. rewrite rotate_frame. cbv zeta. simpl arrayIndex.
  rewrite (wrap64_small (_ + 4)) by lia.
  rewrite flatten_app. simpl flatten.
  apply store4_tracks; try assumption; rewrite ?flatten_length; lia.
Qed.

(** The loop of the odd branch, on an array with room for its stores. *)
Lemma odd_loop_tracks c s (a0 : list (option F)) (K : nat) rds m :
  (2 + 4 * K <= length a0)%nat ->
  Z.of_nat K < 4294967296 ->
  tracks a0 (flatten (odd_points c s 0)) rds [] m ->
  exists m',
    for_up (body_odd c s) (Z.of_nat K) 0 (Locals f0 f1 2) m
    = Ok (frame (rot_n K c s top) (2 + 4 * Z.of_nat K)) m'
    /\ tracks a0 (flatten (odd_points c s K)) rds [] m'.
Proof.
  intros Hlen HK T.
  pose (Inv := fun (k : nat) (l : @locals F) (m : machine) =>
    l = frame (rot_n k c s top) (2 + 4 * Z.of_nat k)
    /\ tracks a0 (flatten (odd_points c s k)) rds [] m).
  destruct (for_up_inv Inv (body_odd c s) K) with (d := K) (k := O)
    (l := Locals f0 f1 2) (m := m) as (l' & m' & E & -> & T').
  - intros k l m1 Hk [-> T1].
    pose proof (body_odd_tracks c s a0 (odd_points c s k) rds (rot_n k c s top) m1 T1) as H.
    rewrite odd_points_length in H.
    destruct H as (m2 & E & T2); [lia|lia|].
    replace (2 * Z.of_nat (1 + 2 * k)) with (2 + 4 * Z.of_nat k) in E by lia.
    do 2 eexists. split; [exact E|]. split.
    + simpl rot_n. f_equal. lia.
    + rewrite odd_points_S. exact T2.
  - lia.
  - split; [reflexivity|exact T].
  - exists m'. split; [exact E|exact T'].
Qed.

(** The first loop of the even branch, on an array with room for its stores. *)
Lemma even_loop_tracks c s (a0 : list (option F)) (K : nat) rds m :
  (2 + 4 * K <= length a0)%nat ->
  Z.of_nat K < 4294967296 ->
  tracks a0 (flatten (even_points c s 0)) rds [] m ->
  exists m',
    for_up (body_even c s) (Z.of_nat K) 0 (Locals f1 f0 2) m
    = Ok (frame (rot_n K c s rightmost) (2 + 4 * Z.of_nat K)) m'
    /\ tracks a0 (flatten (even_points c s K)) rds [] m'.
Proof.
  intros Hlen HK T.
  pose (Inv := fun (k : nat) (l : @locals F) (m : machine) =>
    l = frame (rot_n k c s rightmost) (2 + 4 * Z.of_nat k)
    /\ tracks a0 (flatten (even_points c s k)) rds [] m).
  destruct (for_up_inv Inv (body_even c s) K) with (d := K) (k := O)
    (l := Locals f1 f0 2) (m := m) as (l' & m' & E & -> & T').
  - intros k l m1 Hk [-> T1].
    pose proof (body_even_tracks c s a0 (even_points c s k) rds (rot_n k c s rightmost) m1 T1) as H.
    rewrite even_points_length in H.
    destruct H as (m2 & E & T2); [lia|lia|].
    replace (2 * Z.of_nat (1 + 2 * k)) with (2 + 4 * Z.of_nat k) in E by lia.
    do 2 eexists. split; [exact E|]. split.
    + simpl rot_n. f_equal. lia.
    + rewrite even_points_S. exact T2.
  - lia.
  - split; [reflexivity|exact T].
  - exists m'. split; [exact E|exact T'].
Qed.

End Loops.

Section Runs.
Context {F : Type} {ops : FloatOps F}.

Lemma IsOdd_true n : IsOdd n = true -> n mod 2 = 1.
Proof. unfold IsOdd. intros H. apply Z.eqb_eq in H. exact H. Qed.

Lemma IsOdd_false n : IsOdd n = false -> n mod 2 = 0.
Proof.
  unfold IsOdd. intros H. apply Z.eqb_neq in H.
  pose proof (Z.mod_pos_bound n 2 ltac:(lia)). lia.
Qed.

(** The test of the assertions: [nrOfPoints * 2] is an [unsigned int]. *)
Lemma assert_test n : uint32 n -> (2 * n =? wrap32 (n * 2)) = (n <? 2147483648).
Proof.
  unfold uint32, wrap32. intros H.
  destruct (n <? 2147483648) eqn:E.
  - apply Z.ltb_lt in E. rewrite Z.mod_small by lia. apply Z.eqb_eq. lia.
  - apply Z.ltb_ge in E. apply Z.eqb_neq.
    replace (n * 2) with ((n * 2 - 4294967296) + 1 * 4294967296) by lia.
    rewrite Z.mod_add by lia. rewrite Z.mod_small by lia. lia.
Qed.

(** The first point on an array of at least two scalars: both stores are
    read back. *)
Lemma first_point_tracks vx vy (a0 : list (option F)) :
  (2 <= length a0)%nat ->
  exists m,
    first_point vx vy (Machine a0 []) = Ok (Locals vx vy 2) m
    /\ tracks a0 [vx; vy] [0; 1] [] m.
Proof.
  intros Hlen. unfold first_point, store_load.
  destruct (store_tracks a0 [] [] [] _ 0 vx (tracks_start a0) eq_refl
              ltac:(simpl; lia)) as (m1 & E1 & T1).
  destruct (load_tracks a0 _ _ _ m1 0 0%nat vx T1 eq_refl ltac:(simpl; lia) eq_refl)
    as (m2 & E2 & T2).
  destruct (store_tracks a0 _ _ _ m2 1 vy T2 eq_refl ltac:(simpl; lia))
    as (m3 & E3 & T3).
  destruct (load_tracks a0 _ _ _ m3 1 1%nat vy T3 eq_refl ltac:(simpl; lia) eq_refl)
    as (m4 & E4 & T4).
  exists m4. split; [|exact T4].
  unfold bind. rewrite E1, E2, E3, E4. reflexivity.
Qed.

(** The odd branch on an array with room for [2 + 4 * h] scalars. *)
Lemma odd_branch_tracks c s n h (a0 : list (option F)) :
  0 <= h < 4294967296 ->
  2 + 4 * h <= Z.of_nat (length a0) ->
  exists m,
    odd_branch c s n h (Machine a0 [])
    = Ok (frame (rot_n (Z.to_nat h) c s top) (2 + 4 * h)) m
    /\ tracks a0 (flatten (odd_points c s (Z.to_nat h))) [0; 1]
         [2 + 4 * h =? wrap32 (n * 2)] m.
Proof.
  intros Hh Hlen. unfold odd_branch.
  destruct (first_point_tracks f0 f1 a0 ltac:(lia)) as (m2 & E2 & T2).
  destruct (odd_loop_tracks c s a0 (Z.to_nat h) [0; 1] m2) as (m3 & E3 & T3);
    [lia|lia|exact T2|].
  rewrite Z2Nat.id in E3 by lia.
  destruct (assert_tracks a0 _ [0; 1] [] m3 (2 + 4 * h =? wrap32 (n * 2)) T3)
    as (m4 & E4 & T4).
  exists m4. split; [|exact T4].
  unfold bind. rewrite E2, E3. simpl arrayIndex. rewrite E4. reflexivity.
Qed.

(** The left-most point, stored after the points [pts]. *)
Lemma last_point_tracks n (a0 : list (option F)) pts rds p m :
  tracks a0 (flatten pts) rds [] m ->
  (2 * length pts + 2 <= length a0)%nat ->
  Z.of_nat (length pts) < 8589934592 ->
  exists m',
    last_point n (frame p (2 * Z.of_nat (length pts))) m
    = Ok (frame p (2 * Z.of_nat (length pts))) m'
    /\ tracks a0 (flatten (pts ++ [leftmost])) rds
         [2 * Z.of_nat (length pts) + 2 =? wrap32 (n * 2)] m'.
Proof.
  intros T Hlen Hmax. unfold last_point. simpl arrayIndex.
  rewrite (wrap64_small (_ + 2)) by lia.
  destruct (store2_tracks a0 _ rds [] m (2 * Z.of_nat (length pts)) (fneg f1) f0
              locals
              (fun _ => bind (assert_ (2 * Z.of_nat (length pts) + 2 =? wrap32 (n * 2)))
                          (fun _ => ret (frame p (2 * Z.of_nat (length pts))))) T)
    as (m1 & E1 & T1); [rewrite flatten_length; lia|rewrite flatten_length; lia|lia|].
  rewrite E1.
  destruct (assert_tracks a0 _ rds [] m1
              (2 * Z.of_nat (length pts) + 2 =? wrap32 (n * 2)) T1)
    as (m2 & E2 & T2).
  exists m2. split.
  - unfold bind. rewrite E2. reflexivity.
  - rewrite flatten_app. exact T2.
Qed.

Lemma half_points_length n cw :
  1 <= n -> Z.of_nat (length (half_points (F:=F) n cw)) = n.
Proof.
  intros Hn. unfold half_points. destruct (IsOdd n) eqn:E.
  - apply IsOdd_true in E. rewrite odd_points_length. lia.
  - apply IsOdd_false in E. rewrite length_app, even_points_length. simpl. lia.
Qed.

(** [CreateCircle] on an array with room for the [2n] scalars: the call
    returns, and the array and the log are those of [half_points]. *)
Theorem CreateCircle_runs n cw (a0 : list (option F)) :
  1 <= n < 4294967296 ->
  2 * n <= Z.of_nat (length a0) ->
  exists l m,
    CreateCircle n (Some a0) cw = Ran (Ok l m)
    /\ arrayIndex l = (if IsOdd n then 2 * n else 2 * n - 2)
    /\ tracks a0 (flatten (half_points n cw)) [0; 1] [n <? 2147483648] m.
Proof.
  intros Hn Hlen. unfold CreateCircle, half_points.
  fold (cosIncr_of n cw) (sinIncr_of n cw).
  set (c := cosIncr_of n cw). set (s := sinIncr_of n cw). cbv zeta.
  destruct (IsOdd n) eqn:E.
  - apply IsOdd_true in E.
    destruct (odd_branch_tracks c s n (n / 2) a0) as (m & Em & T); [lia|lia|].
    rewrite Em. do 2 eexists. split; [reflexivity|]. split.
    + simpl. lia.
    + replace (2 + 4 * (n / 2)) with (2 * n) in T by lia.
      rewrite assert_test in T by (unfold uint32; lia). exact T.
  - apply IsOdd_false in E.
    destruct (first_point_tracks f1 f0 a0 ltac:(lia)) as (m2 & E2 & T2).
    rewrite wrap32_small by lia.
    destruct (even_loop_tracks c s a0 (Z.to_nat (n / 2 - 1)) [0; 1] m2)
      as (m3 & E3 & T3); [lia|lia|exact T2|].
    rewrite Z2Nat.id in E3 by lia.
    pose proof (last_point_tracks n a0 _ [0; 1]
                  (rot_n (Z.to_nat (n / 2 - 1)) c s rightmost) m3 T3) as H.
    rewrite even_points_length in H.
    replace (2 * Z.of_nat (1 + 2 * Z.to_nat (n / 2 - 1))) with (2 + 4 * (n / 2 - 1))
      in H by lia.
    destruct H as (m4 & E4 & T4); [lia|lia|].
    unfold bind. rewrite E2, E3, E4.
    do 2 eexists. split; [reflexivity|]. split.
    + simpl. lia.
    + replace (2 + 4 * (n / 2 - 1) + 2) with (2 * n) in T4 by lia.
      rewrite assert_test in T4 by (unfold uint32; lia). exact T4.
Qed.

End Runs.

Section Runs2.
Context {F : Type} {ops : FloatOps F}.

Lemma int_val_ok z (m : @machine F) :
  INT_MIN <= z <= INT_MAX -> int_val z m = Ok z m.
Proof.
  intros H. unfold int_val, in_int.
  destruct (INT_MIN <=? z) eqn:E1; [|lia].
  destruct (z <=? INT_MAX) eqn:E2; [|lia]. reflexivity.
Qed.

Lemma int_val_overflow z (m : @machine F) :
  INT_MAX < z -> int_val z m = Undef SignedOverflow m.
Proof.
  intros H. unfold int_val, in_int.
  destruct (z <=? INT_MAX) eqn:E2; [lia|].
  rewrite andb_false_r. reflexivity.
Qed.

(** The vertices of the first pass: vertex [2j - 1] holds the [j]-th rotated
    point and vertex [2j] its mirror image. *)
Lemma even_points_lookup c s K j :
  (1 <= j <= K)%nat ->
  even_points c s K !! (2 * j - 1)%nat = Some (rot_n j c s rightmost)
  /\ even_points c s K !! (2 * j)%nat = Some (mirror_tb (rot_n j c s rightmost)).
Proof.
  induction K as [|K IH]; intros Hj; [lia|].
  rewrite even_points_S.
  destruct (decide (j = S K)) as [->|Hne].
  - rewrite !lookup_app_r by (rewrite even_points_length; lia).
    rewrite even_points_length.
    replace (2 * S K - 1 - (1 + 2 * K))%nat with 0%nat by lia.
    replace (2 * S K - (1 + 2 * K))%nat with 1%nat by lia.
    split; reflexivity.
  - rewrite !lookup_app_l by (rewrite even_points_length; lia).
    apply IH. lia.
Qed.

Lemma odd_points_lookup c s K j :
  (1 <= j <= K)%nat ->
  odd_points c s K !! (2 * j - 1)%nat = Some (rot_n j c s top)
  /\ odd_points c s K !! (2 * j)%nat = Some (mirror_lr (rot_n j c s top)).
Proof.
  induction K as [|K IH]; intros Hj; [lia|].
  rewrite odd_points_S.
  destruct (decide (j = S K)) as [->|Hne].
  - rewrite !lookup_app_r by (rewrite odd_points_length; lia).
    rewrite odd_points_length.
    replace (2 * S K - 1 - (1 + 2 * K))%nat with 0%nat by lia.
    replace (2 * S K - (1 + 2 * K))%nat with 1%nat by lia.
    split; reflexivity.
  - rewrite !lookup_app_l by (rewrite odd_points_length; lia).
    apply IH. lia.
Qed.

Lemma down_step (m k : nat) :
  (k < m)%nat ->
  rev (seq (S k) (m - k)) = rev (seq (S (S k)) (m - S k)) ++ [S k].
Proof.
  intros H. replace (m - k)%nat with (S (m - S k)) by lia. reflexivity.
Qed.

Lemma readback_points_step c s (m k : nat) :
  (k < m)%nat ->
  readback_points c s m k =
  readback_points c s m (S k)
    ++ [mirror_lr (rot_n (S k) c s rightmost);
        mirror_lr (mirror_tb (rot_n (S k) c s rightmost))].
Proof.
  intros H. unfold readback_points. rewrite (down_step m k H), flat_map_app.
  simpl. reflexivity.
Qed.

Lemma readback_reads_step (m k : nat) :
  (k < m)%nat ->
  readback_reads m k =
  readback_reads m (S k)
    ++ [(2 * Z.of_nat (S k) - 1) * 2; (2 * Z.of_nat (S k) - 1) * 2 + 1].
Proof.
  intros H. unfold readback_reads. rewrite (down_step m k H), flat_map_app.
  simpl. reflexivity.
Qed.

Lemma readback_points_length c s (m k : nat) :
  (k <= m)%nat -> length (readback_points c s m k) = (2 * (m - k))%nat.
Proof.
  intros H. unfold readback_points.
  rewrite pair_flat_map_length, length_rev, length_seq. reflexivity.
Qed.

(** One iteration of the read-back: vertex [2(k+1) - 1] is read and its two
    images are stored. *)
Lemma body_readback_tracks c s (a0 : list (option F)) (K m k : nat) l mach :
  (S k <= m <= K)%nat ->
  Z.of_nat m <= 536870912 ->
  Z.of_nat K < 4294967296 ->
  tracks a0 (flatten (even_points c s K ++ readback_points c s m (S k)))
    ([0; 1] ++ readback_reads m (S k)) [] mach ->
  arrayIndex l = 2 + 4 * Z.of_nat K + 4 * Z.of_nat (m - S k) ->
  2 + 4 * Z.of_nat K + 4 * Z.of_nat (m - k) <= Z.of_nat (length a0) ->
  exists l' mach',
    body_readback (2 * Z.of_nat (S k) - 1) l mach = Ok l' mach'
    /\ arrayIndex l' = 2 + 4 * Z.of_nat K + 4 * Z.of_nat (m - k)
    /\ tracks a0 (flatten (even_points c s K ++ readback_points c s m k))
         ([0; 1] ++ readback_reads m k) [] mach'.
Proof.
  intros Hk Hm HK T Hai Hlen.
  set (pts := even_points c s K ++ readback_points c s m (S k)) in *.
  set (p := rot_n (S k) c s rightmost).
  assert (Hlenpts : length pts = (1 + 2 * K + 2 * (m - S k))%nat).
  { unfold pts. rewrite length_app, even_points_length, readback_points_length; lia. }
  assert (Hp : pts !! (2 * k + 1)%nat = Some p).
  { unfold pts. rewrite lookup_app_l by (rewrite even_points_length; lia).
    replace (2 * k + 1)%nat with (2 * S k - 1)%nat by lia.
    apply even_points_lookup. lia. }
  destruct (flatten_lookup pts _ _ Hp) as [Hx Hy].
  assert (Hcap : (length (flatten pts) + 4 <= length a0)%nat).
  { rewrite flatten_length, Hlenpts. lia. }
  unfold body_readback.
  set (ix := (2 * Z.of_nat (S k) - 1) * 2).
  destruct (load_tracks a0 _ _ [] mach ix (2 * (2 * k + 1))%nat p.1 T
              ltac:(unfold ix; lia) ltac:(lia) Hx) as (m1 & E1 & T1).
  destruct (load_tracks a0 _ _ [] m1 (ix + 1) (2 * (2 * k + 1) + 1)%nat p.2 T1
              ltac:(unfold ix; lia) ltac:(lia) Hy) as (m2 & E2 & T2).
  destruct (store4_tracks a0 _ _ [] m2 (arrayIndex l)
              (fneg p.1) p.2 (fneg p.1) (fneg p.2)
              (Locals p.1 p.2 (wrap64 (arrayIndex l + 4))) T2)
    as (m3 & E3 & T3).
  { rewrite flatten_length, Hlenpts. lia. }
  { exact Hcap. }
  { lia. }
  exists (Locals p.1 p.2 (wrap64 (arrayIndex l + 4))), m3. split; [|split].
  - unfold bind at 1. rewrite int_val_ok by (unfold INT_MIN, INT_MAX, ix; lia).
    unfold bind at 1. rewrite E1.
    unfold bind at 1. rewrite int_val_ok by (unfold INT_MIN, INT_MAX, ix; lia).
    unfold bind at 1. rewrite int_val_ok by (unfold INT_MIN, INT_MAX, ix; lia).
    unfold bind at 1. rewrite E2.
    exact E3.
  - simpl. rewrite wrap64_small by lia. lia.
  - rewrite (readback_points_step c s m k) by lia.
    rewrite (readback_reads_step m k) by lia.
    rewrite (app_assoc [0; 1]).
    rewrite app_assoc, flatten_app. fold pts. fold p.
    rewrite <- app_assoc in T3. exact T3.
Qed.

(** The read-back loop from vertex [2m - 1] down to vertex 1. *)
Lemma readback_loop_tracks c s (a0 : list (option F)) (K m : nat) p mach :
  (m <= K)%nat ->
  Z.of_nat m <= 536870912 ->
  Z.of_nat K < 4294967296 ->
  2 + 4 * Z.of_nat K + 4 * Z.of_nat m <= Z.of_nat (length a0) ->
  tracks a0 (flatten (even_points c s K)) [0; 1] [] mach ->
  exists q mach',
    for_down2 body_readback (2 * Z.of_nat m - 1)
      (frame p (2 + 4 * Z.of_nat K)) mach
    = Ok (frame q (2 + 4 * Z.of_nat K + 4 * Z.of_nat m)) mach'
    /\ tracks a0 (flatten (even_points c s K ++ readback_points c s m 0))
         ([0; 1] ++ readback_reads m 0) [] mach'.
Proof.
  intros HmK Hm HK Hlen T.
  pose (Inv := fun (k : nat) (l : @locals F) (mach : machine) =>
    (k <= m)%nat
    /\ arrayIndex l = 2 + 4 * Z.of_nat K + 4 * Z.of_nat (m - k)
    /\ tracks a0 (flatten (even_points c s K ++ readback_points c s m k))
         ([0; 1] ++ readback_reads m k) [] mach).
  destruct (for_down2_inv Inv body_readback) with (k := m)
    (l := frame p (2 + 4 * Z.of_nat K)) (m := mach)
    as (l' & mach' & E & _ & Hai & T').
  - intros k l m1 (Hk & Hai & T1).
    destruct (body_readback_tracks c s a0 K m k l m1) as (l' & m2 & E & Hai' & T2);
      try assumption; try lia.
    exists l', m2. split; [exact E|]. split; [lia|]. split; assumption.
  - split; [lia|]. split.
    + simpl. rewrite Nat.sub_diag. lia.
    + unfold readback_points, readback_reads. rewrite Nat.sub_diag. simpl.
      rewrite app_nil_r. exact T.
  - destruct l' as [x y ai]. simpl in Hai. subst ai.
    exists (x, y), mach'. split; [|exact T'].
    rewrite E. unfold frame. simpl. do 2 f_equal. lia.
Qed.

End Runs2.

Section Runs3.
Context {F : Type} {ops : FloatOps F}.

Lemma quarter_points_length n cw :
  1 <= n -> Z.of_nat (length (quarter_points (F:=F) n cw)) = n.
Proof.
  intros Hn. unfold quarter_points, quarter_steps, readback_steps.
  destruct (IsOdd n) eqn:E.
  - apply IsOdd_true in E. rewrite odd_points_length. lia.
  - apply IsOdd_false in E.
    rewrite !length_app, even_points_length, readback_points_length by lia.
    simpl. lia.
Qed.

(** The even branch of [CreateCircle2] up to the end of its first loop. *)
Lemma first_pass_tracks c s n (a0 : list (option F)) :
  0 <= n < 4294967296 ->
  2 + 4 * (n / 2 / 2) <= Z.of_nat (length a0) ->
  exists m,
    bind (first_point f1 f0) (fun l =>
      for_up (body_even c s) (Z.quot (to_int (n / 2)) 2) 0 l)
      (Machine a0 [])
    = Ok (frame (rot_n (quarter_steps n) c s rightmost)
            (2 + 4 * (n / 2 / 2))) m
    /\ tracks a0 (flatten (even_points c s (quarter_steps n))) [0; 1] [] m.
Proof.
  intros Hn Hlen. unfold quarter_steps.
  rewrite to_int_small by lia.
  rewrite Z.quot_div_nonneg by lia.
  destruct (first_point_tracks f1 f0 a0 ltac:(lia)) as (m2 & E2 & T2).
  destruct (even_loop_tracks c s a0 (Z.to_nat (n / 2 / 2)) [0; 1] m2)
    as (m3 & E3 & T3); [lia|lia|exact T2|].
  rewrite Z2Nat.id in E3 by lia.
  exists m3. split; [|exact T3].
  unfold bind. rewrite E2. exact E3.
Qed.

Lemma startIndex_steps n :
  2 <= n < 4294967296 ->
  (if negb (Z.rem (to_int (n / 2)) 2 =? 0)
   then to_int (n / 2) - 2 else to_int (n / 2) - 3)
  = 2 * Z.of_nat (readback_steps n) - 1.
Proof.
  intros Hn. unfold readback_steps.
  rewrite to_int_small by lia.
  rewrite Z.rem_mod_nonneg by lia.
  destruct (n / 2 mod 2 =? 0) eqn:E; simpl.
  - apply Z.eqb_eq in E. lia.
  - apply Z.eqb_neq in E. lia.
Qed.

(** [CreateCircle2] on an array with room for the [2n] scalars, when [n] is
    odd or the indices of the read-back fit in [int]: the call returns, and
    the array and the log are those of [quarter_points]. *)
Theorem CreateCircle2_runs n cw (a0 : list (option F)) :
  1 <= n < 4294967296 ->
  IsOdd n = true \/ n <= 2147483653 ->
  2 * n <= Z.of_nat (length a0) ->
  exists l m,
    CreateCircle2 n (Some a0) cw = Ran (Ok l m)
    /\ arrayIndex l = (if IsOdd n then 2 * n else 2 * n - 2)
    /\ tracks a0 (flatten (quarter_points n cw))
         (if IsOdd n then [0; 1]
          else [0; 1] ++ readback_reads (readback_steps n) 0)
         [n <? 2147483648] m.
Proof.
  intros Hn Hfit Hlen. unfold CreateCircle2, quarter_points.
  fold (cosIncr_of n cw) (sinIncr_of n cw).
  set (c := cosIncr_of n cw). set (s := sinIncr_of n cw). cbv zeta.
  destruct (IsOdd n) eqn:E.
  - apply IsOdd_true in E. rewrite to_int_small by lia.
    destruct (odd_branch_tracks c s n (n / 2) a0) as (m & Em & T); [lia|lia|].
    rewrite Em. do 2 eexists. split; [reflexivity|]. split.
    + simpl. lia.
    + replace (2 + 4 * (n / 2)) with (2 * n) in T by lia.
      rewrite assert_test in T by (unfold uint32; lia). exact T.
  - destruct Hfit as [Hfit|Hfit]; [discriminate|].
    apply IsOdd_false in E.
    destruct (first_pass_tracks c s n a0) as (m1 & E1 & T1); [lia|lia|].
    rewrite startIndex_steps by lia.
    assert (HK : Z.of_nat (quarter_steps n) = n / 2 / 2) by (unfold quarter_steps; lia).
    assert (HM : Z.of_nat (readback_steps n) = (n / 2 - 1) / 2)
      by (unfold readback_steps; lia).
    rewrite <- HK in E1.
    destruct (readback_loop_tracks c s a0 (quarter_steps n) (readback_steps n)
                (rot_n (quarter_steps n) c s rightmost) m1)
      as (q & m2 & E2 & T2); [lia|lia|lia|lia|exact T1|].
    pose proof (last_point_tracks n a0 _ _ q m2 T2) as H.
    rewrite length_app, even_points_length, readback_points_length in H by lia.
    replace (2 * Z.of_nat (1 + 2 * quarter_steps n + 2 * (readback_steps n - 0)))
      with (2 + 4 * Z.of_nat (quarter_steps n) + 4 * Z.of_nat (readback_steps n))
      in H by lia.
    destruct H as (m3 & E3 & T3); [lia|lia|].
    do 2 eexists. split; [|split].
    + f_equal. unfold bind in E1 |- *.
      destruct (first_point f1 f0 (Machine a0 [])) as [la ma|]; [|discriminate].
      rewrite E1, E2. exact E3.
    + simpl. lia.
    + rewrite <- app_assoc in T3.
      replace (2 + 4 * Z.of_nat (quarter_steps n)
               + 4 * Z.of_nat (readback_steps n) + 2) with (2 * n) in T3 by lia.
      rewrite assert_test in T3 by (unfold uint32; lia). exact T3.
Qed.

(** [CreateCircle2] for an even [n] from 2^31 + 6 on: the first loop runs to
    its end, and the first index of the read-back overflows [int]. *)
Theorem CreateCircle2_overflows n cw (a0 : list (option F)) :
  IsOdd n = false ->
  2147483654 <= n < 4294967296 ->
  2 * n <= Z.of_nat (length a0) ->
  exists m,
    CreateCircle2 n (Some a0) cw = Ran (Undef SignedOverflow m)
    /\ tracks a0
         (flatten (even_points (cosIncr_of n cw) (sinIncr_of n cw) (quarter_steps n)))
         [0; 1] [] m.
Proof.
  intros E Hn Hlen. unfold CreateCircle2.
  fold (cosIncr_of n cw) (sinIncr_of n cw).
  set (c := cosIncr_of n cw). set (s := sinIncr_of n cw). cbv zeta.
  rewrite E. apply IsOdd_false in E.
  destruct (first_pass_tracks c s n a0) as (m1 & E1 & T1); [lia|lia|].
  rewrite startIndex_steps by lia.
  assert (HM : Z.of_nat (readback_steps n) = (n / 2 - 1) / 2)
    by (unfold readback_steps; lia).
  exists m1. split; [|exact T1].
  f_equal. unfold bind in E1 |- *.
  destruct (first_point f1 f0 (Machine a0 [])) as [la ma|]; [|discriminate].
  rewrite E1. rewrite for_down2_step.
  destruct (Z_gt_dec _ _) as [_|Hle]; [|lia].
  unfold body_readback. unfold bind at 1.
  rewrite int_val_overflow by (unfold INT_MAX; lia). reflexivity.
Qed.

End Runs3.

Section Real.
Local Open Scope R_scope.

Lemma rot_R (c s x y : R) :
  rot c s (x, y) = (c * x + s * y, s * - x + c * y).
Proof. reflexivity. Qed.

Lemma pair_eq (a b c d : R) : a = c -> b = d -> (a, b) = (c, d).
Proof. intros -> ->. reflexivity. Qed.

(** The rotation recurrence from the top point, in closed form. *)
Lemma rot_n_top (k : nat) (a : R) :
  rot_n k (cos a) (sin a) top = (sin (INR k * a), cos (INR k * a)).
Proof.
  induction k as [|k IH].
  - simpl rot_n. unfold top. simpl. rewrite Rmult_0_l, sin_0, cos_0. reflexivity.
  - simpl rot_n. rewrite IH, rot_R, S_INR.
    replace ((INR k + 1) * a) with (INR k * a + a) by ring.
    rewrite sin_plus, cos_plus. apply pair_eq; ring.
Qed.

(** The rotation recurrence from the right-most point, in closed form. *)
Lemma rot_n_rightmost (k : nat) (a : R) :
  rot_n k (cos a) (sin a) rightmost = (cos (INR k * a), - sin (INR k * a)).
Proof.
  induction k as [|k IH].
  - simpl rot_n. unfold rightmost. simpl. rewrite Rmult_0_l, sin_0, cos_0.
    apply pair_eq; ring.
  - simpl rot_n. rewrite IH, rot_R, S_INR.
    replace ((INR k + 1) * a) with (INR k * a + a) by ring.
    rewrite sin_plus, cos_plus. apply pair_eq; ring.
Qed.
















End Real.

Section Emitted.
Context {F : Type} {ops : FloatOps F}.

(** The points emitted by a run that [tracks] describes. *)
Lemma tracks_emitted (a0 : list (option F)) pts rds asr m :
  tracks a0 (flatten pts) rds asr m ->
  pairs_of (snd <$> write_log (trace m)) = pts.
Proof.
  intros [_ Hw _ _]. rewrite Hw, indexed_snd. apply pairs_of_flatten.
Qed.

Lemma CreateCircle_emitted n cw (a0 : list (option F)) :
  1 <= n < 4294967296 ->
  2 * n <= Z.of_nat (length a0) ->
  emitted (CreateCircle n (Some a0) cw) = half_points n cw.
Proof.
  intros Hn Hlen.
  destruct (CreateCircle_runs n cw a0 Hn Hlen) as (l & m & E & _ & T).
  unfold emitted, log_of. rewrite E. simpl. eapply tracks_emitted; eauto.
Qed.

Lemma CreateCircle2_emitted n cw (a0 : list (option F)) :
  1 <= n < 4294967296 ->
  IsOdd n = true \/ n <= 2147483653 ->
  2 * n <= Z.of_nat (length a0) ->
  emitted (CreateCircle2 n (Some a0) cw) = quarter_points n cw.
Proof.
  intros Hn Hfit Hlen.
  destruct (CreateCircle2_runs n cw a0 Hn Hfit Hlen) as (l & m & E & _ & T).
  unfold emitted, log_of. rewrite E. simpl. eapply tracks_emitted; eauto.
Qed.

Lemma CreateCircle2_emitted_overflow n cw (a0 : list (option F)) :
  IsOdd n = false ->
  2147483654 <= n < 4294967296 ->
  2 * n <= Z.of_nat (length a0) ->
  emitted (CreateCircle2 n (Some a0) cw)
  = even_points (cosIncr_of n cw) (sinIncr_of n cw) (quarter_steps n).
Proof.
  intros E Hn Hlen.
  destruct (CreateCircle2_overflows n cw a0 E Hn Hlen) as (m & Em & T).
  unfold emitted, log_of. rewrite Em. simpl. eapply tracks_emitted; eauto.
Qed.

End Emitted.

Section Vertex.
Context {F : Type} {ops : FloatOps F}.

(** The vertices of the array of a run that [tracks] describes. *)
Lemma tracks_vertex (a0 : list (option F)) pts rds asr m k p :
  tracks a0 (flatten pts) rds asr m ->
  pts !! k = Some p ->
  vertex (buf m) k = Some p.
Proof.
  intros [Hb _ _ _] Hk. destruct (flatten_lookup pts k p Hk) as [Hx Hy].
  unfold vertex. rewrite Hb.
  rewrite (filled_lookup a0 _ _ _ Hx), (filled_lookup a0 _ _ _ Hy).
  destruct p; reflexivity.
Qed.

(** Beyond the scalars stored, the array is as the caller left it. *)
Lemma tracks_untouched (a0 : list (option F)) out rds asr m k :
  tracks a0 out rds asr m ->
  (length out <= k)%nat ->
  buf m !! k = a0 !! k.
Proof. intros [Hb _ _ _] Hk. rewrite Hb. apply filled_lookup_ge. exact Hk. Qed.

(** The stores of a run that [tracks] describes fall on the indices
    [0 .. length out - 1], each once and in this order. *)
Lemma tracks_write_indices (a0 : list (option F)) out rds asr m :
  tracks a0 out rds asr m ->
  fst <$> write_log (trace m) = Z.of_nat <$> seq 0 (length out).
Proof.
  intros [_ Hw _ _]. rewrite Hw. clear.
  change 0 with (Z.of_nat 0). generalize 0%nat.
  induction out as [|v out IH]; intros i; simpl; [reflexivity|].
  f_equal. replace (Z.of_nat i + 1) with (Z.of_nat (S i)) by lia. apply IH.
Qed.

End Vertex.

(** C10.  For an odd count the two functions are the same computation:
    whatever the array and the winding flag, [CreateCircle] and
    [CreateCircle2] end in the same outcome, with the same array contents and
    the same log. *)
Theorem odd_branch_shared {F : Type} {ops : FloatOps F} (n : Z)
  (pointsOut : option (list (option F))) (cw : bool) :
  uint32 n -> IsOdd n = true ->
  CreateCircle n pointsOut cw = CreateCircle2 n pointsOut cw.
Proof.
  intros Hn Hodd. unfold CreateCircle, CreateCircle2.
  destruct pointsOut as [a|]; [|reflexivity].
  cbv zeta. rewrite Hodd. rewrite to_int_small; [reflexivity|].
  unfold uint32 in Hn. lia.
Qed.

Lemma odd_branch_shared_witness :
  CreateCircle (F:=R) 5 (Some (fresh R 10)) true
  = CreateCircle2 5 (Some (fresh R 10)) true.
Proof. apply odd_branch_shared; [unfold uint32; lia|reflexivity]. Defined.


Lemma length_fresh F k : 0 <= k -> Z.of_nat (length (fresh F k)) = k.
Proof. intros H. unfold fresh. rewrite length_replicate. lia. Qed.

Lemma fresh_room F (k : Z) : 0 <= k -> k <= Z.of_nat (length (fresh F k)).
Proof. intros H. rewrite length_fresh; lia. Qed.




(** C5.  For an odd count and [clockwise = true], [CreateCircle] puts
    [(0, 1)] at vertex 0; iteration [i] (from 0) of its loop puts at vertex
    [2i + 1] the point the recurrence reaches after [i + 1] steps from
    [(0, 1)], which is [(sin ((i+1) * 2 pi / n), cos ((i+1) * 2 pi / n))], and
    at vertex [2i + 2] its mirror image [(-x, y)]. *)
Theorem odd_clockwise_vertices (n : Z) (a0 : list (option R)) :
  1 <= n < 4294967296 ->
  IsOdd n = true ->
  2 * n <= Z.of_nat (length a0) ->
  exists l m,
    CreateCircle n (Some a0) true = Ran (Ok l m)
    /\ vertex (buf m) 0 = Some (0, 1)%R
    /\ forall i : nat, Z.of_nat i < n / 2 ->
       let a := (PI * 2 / IZR n)%R in
       let p := (sin (INR (i + 1) * a), cos (INR (i + 1) * a))%R in
       rot_n (i + 1) (cos a) (sin a) (0, 1)%R = p
       /\ vertex (buf m) (2 * i + 1) = Some p
       /\ vertex (buf m) (2 * i + 2) = Some (- p.1, p.2)%R.
Proof.
  intros Hn Hodd Hlen.
  destruct (CreateCircle_runs n true a0 Hn Hlen) as (l & m & E & _ & T).
  exists l, m. split; [exact E|].
  unfold half_points in T. rewrite Hodd in T. cbv zeta in T.
  split.
  - eapply tracks_vertex; [exact T|]. reflexivity.
  - intros i Hi a p.
    assert (Hrot : rot_n (i + 1) (cos a) (sin a) top = p) by apply rot_n_top.
    destruct (odd_points_lookup (cosIncr_of n true) (sinIncr_of n true)
                (Z.to_nat (n / 2)) (i + 1)) as [H1 H2]; [lia|].
    change (cosIncr_of n true) with (cos a) in *.
    change (sinIncr_of n true) with (sin a) in *.
    rewrite Hrot in H1, H2.
    split; [exact Hrot|]. split.
    + eapply tracks_vertex; [exact T|].
      replace (2 * i + 1)%nat with (2 * (i + 1) - 1)%nat by lia. exact H1.
    + eapply tracks_vertex; [exact T|].
      replace (2 * i + 2)%nat with (2 * (i + 1))%nat by lia. exact H2.
Qed.

Lemma odd_clockwise_vertices_witness :
  1 <= 5 < 4294967296
  /\ IsOdd 5 = true
  /\ 2 * 5 <= Z.of_nat (length (fresh R 10))
  /\ exists l m,
    CreateCircle 5 (Some (fresh R 10)) true = Ran (Ok l m)
    /\ vertex (buf m) 0 = Some (0, 1)%R
    /\ forall i : nat, Z.of_nat i < 5 / 2 ->
       let a := (PI * 2 / IZR 5)%R in
       let p := (sin (INR (i + 1) * a), cos (INR (i + 1) * a))%R in
       rot_n (i + 1) (cos a) (sin a) (0, 1)%R = p
       /\ vertex (buf m) (2 * i + 1) = Some p
       /\ vertex (buf m) (2 * i + 2) = Some (- p.1, p.2)%R.
Proof.
  split; [lia|]. split; [reflexivity|]. split; [simpl; lia|].
  apply (odd_clockwise_vertices 5 (fresh R 10)); [lia|reflexivity|simpl; lia].
Defined.

Section Degenerate.
Context {F : Type} {ops : FloatOps F}.

(** C8.  For 1 and 2 points neither function leaves the array: for 1 point
    the stores fall on the indices 0 and 1, for 2 points on the indices 0 to
    3, the only reads are those of the first point, at the indices 0 and 1
    just stored (the read-back loop of [CreateCircle2] does not run), and the
    call returns. *)
Theorem degenerate_counts_in_bounds (cw : bool) (a1 a2 : list (option F)) :
  2 <= Z.of_nat (length a1) ->
  4 <= Z.of_nat (length a2) ->
  (exists l m,
     CreateCircle 1 (Some a1) cw = Ran (Ok l m)
     /\ fst <$> write_log (trace m) = [0; 1] /\ read_log (trace m) = [0; 1])
  /\ (exists l m,
     CreateCircle2 1 (Some a1) cw = Ran (Ok l m)
     /\ fst <$> write_log (trace m) = [0; 1] /\ read_log (trace m) = [0; 1])
  /\ (exists l m,
     CreateCircle 2 (Some a2) cw = Ran (Ok l m)
     /\ fst <$> write_log (trace m) = [0; 1; 2; 3] /\ read_log (trace m) = [0; 1])
  /\ (exists l m,
     CreateCircle2 2 (Some a2) cw = Ran (Ok l m)
     /\ fst <$> write_log (trace m) = [0; 1; 2; 3] /\ read_log (trace m) = [0; 1]).
Proof.
  intros H1 H2.
  split; [|split; [|split]].
  - destruct (CreateCircle_runs 1 cw a1 ltac:(lia) ltac:(lia)) as (l & m & E & _ & T).
    exists l, m. split; [exact E|]. split.
    + rewrite (tracks_write_indices _ _ _ _ _ T). reflexivity.
    + apply (tracks_reads _ _ _ _ _ T).
  - destruct (CreateCircle2_runs 1 cw a1 ltac:(lia) ltac:(left; reflexivity) ltac:(lia))
      as (l & m & E & _ & T).
    exists l, m. split; [exact E|]. split.
    + rewrite (tracks_write_indices _ _ _ _ _ T). reflexivity.
    + apply (tracks_reads _ _ _ _ _ T).
  - destruct (CreateCircle_runs 2 cw a2 ltac:(lia) ltac:(lia)) as (l & m & E & _ & T).
    exists l, m. split; [exact E|]. split.
    + rewrite (tracks_write_indices _ _ _ _ _ T). reflexivity.
    + apply (tracks_reads _ _ _ _ _ T).
  - destruct (CreateCircle2_runs 2 cw a2 ltac:(lia) ltac:(right; lia) ltac:(lia))
      as (l & m & E & _ & T).
    exists l, m. split; [exact E|]. split.
    + rewrite (tracks_write_indices _ _ _ _ _ T). reflexivity.
    + apply (tracks_reads _ _ _ _ _ T).
Qed.

End Degenerate.

Lemma degenerate_counts_in_bounds_witness :
  2 <= Z.of_nat (length (fresh R 2))
  /\ 4 <= Z.of_nat (length (fresh R 4))
  /\ (exists l m,
     CreateCircle 1 (Some (fresh R 2)) true = Ran (Ok l m)
     /\ fst <$> write_log (trace m) = [0; 1] /\ read_log (trace m) = [0; 1])
  /\ (exists l m,
     CreateCircle2 1 (Some (fresh R 2)) true = Ran (Ok l m)
     /\ fst <$> write_log (trace m) = [0; 1] /\ read_log (trace m) = [0; 1])
  /\ (exists l m,
     CreateCircle 2 (Some (fresh R 4)) true = Ran (Ok l m)
     /\ fst <$> write_log (trace m) = [0; 1; 2; 3] /\ read_log (trace m) = [0; 1])
  /\ (exists l m,
     CreateCircle2 2 (Some (fresh R 4)) true = Ran (Ok l m)
     /\ fst <$> write_log (trace m) = [0; 1; 2; 3] /\ read_log (trace m) = [0; 1]).
Proof.
  split; [simpl; lia|]. split; [simpl; lia|].
  apply (degenerate_counts_in_bounds true (fresh R 2) (fresh R 4)); simpl; lia.
Defined.

Section Cursor.
Context {F : Type} {ops : FloatOps F}.

Lemma tracks_write_count (a0 : list (option F)) pts rds asr m :
  tracks a0 (flatten pts) rds asr m ->
  Z.of_nat (length (write_log (trace m))) = 2 * Z.of_nat (length pts).
Proof.
  intros [_ Hw _ _]. rewrite Hw, indexed_length, flatten_length. lia.
Qed.

(** C1, at the count 2^31.  [CreateCircle] returns with the cursor on
    [2n - 2] before the last point and has stored [2n] scalars, but the test
    of its assertion fails: [nrOfPoints * 2] is computed in [unsigned int]
    and wraps to 0, while the cursor plus 2 is 2^32. *)
Theorem assertion_wraps_at_2_31 (cw : bool) :
  exists l m,
    CreateCircle 2147483648 (Some (fresh F 4294967296)) cw = Ran (Ok l m)
    /\ arrayIndex l + 2 = 2 * 2147483648
    /\ Z.of_nat (length (write_log (trace m))) = 2 * 2147483648
    /\ wrap32 (2147483648 * 2) = 0
    /\ assert_log (trace m) = [false].
Proof.
  destruct (CreateCircle_runs 2147483648 cw (fresh F 4294967296))
    as (l & m & E & Hai & T); [lia|rewrite length_fresh; lia|].
  exists l, m. split; [exact E|].
  change (IsOdd 2147483648) with false in Hai. cbv iota in Hai.
  change (2147483648 <? 2147483648) with false in T.
  split; [lia|]. split; [|split].
  - rewrite (tracks_write_count _ _ _ _ _ T), half_points_length; lia.
  - reflexivity.
  - apply (tracks_asserts _ _ _ _ _ T).
Qed.

(** X1.  [CreateCircle] for every count: the call returns, the cursor ends on
    [2n], the stores fall on [0 .. 2n - 1] in this order, the only reads are
    those of the first point (indices 0 and 1, each after its store), and the
    assertion holds when [2n] fits in an [unsigned int]. *)
Theorem CreateCircle_cursor (n : Z) (cw : bool) (a0 : list (option F)) :
  1 <= n < 4294967296 ->
  2 * n <= Z.of_nat (length a0) ->
  exists l m,
    CreateCircle n (Some a0) cw = Ran (Ok l m)
    /\ arrayIndex l = (if IsOdd n then 2 * n else 2 * n - 2)
    /\ fst <$> write_log (trace m) = Z.of_nat <$> seq 0 (Z.to_nat (2 * n))
    /\ read_log (trace m) = [0; 1]
    /\ assert_log (trace m) = [n <? 2147483648]
    /\ forall k, 2 * n <= Z.of_nat k -> buf m !! k = a0 !! k.
Proof.
  intros Hn Hlen.
  destruct (CreateCircle_runs n cw a0 Hn Hlen) as (l & m & E & Hai & T).
  pose proof (half_points_length (F:=F) n cw ltac:(lia)) as Hl.
  exists l, m. split; [exact E|]. split; [exact Hai|].
  split; [|split; [|split]].
  - rewrite (tracks_write_indices _ _ _ _ _ T), flatten_length.
    do 2 f_equal. lia.
  - apply (tracks_reads _ _ _ _ _ T).
  - apply (tracks_asserts _ _ _ _ _ T).
  - intros k Hk. eapply tracks_untouched; [exact T|].
    rewrite flatten_length. lia.
Qed.

(** X2.  [CreateCircle2] for every count whose read-back indices fit in [int]. *)
Theorem CreateCircle2_cursor (n : Z) (cw : bool) (a0 : list (option F)) :
  1 <= n < 4294967296 ->
  IsOdd n = true \/ n <= 2147483653 ->
  2 * n <= Z.of_nat (length a0) ->
  exists l m,
    CreateCircle2 n (Some a0) cw = Ran (Ok l m)
    /\ arrayIndex l = (if IsOdd n then 2 * n else 2 * n - 2)
    /\ fst <$> write_log (trace m) = Z.of_nat <$> seq 0 (Z.to_nat (2 * n))
    /\ assert_log (trace m) = [n <? 2147483648]
    /\ forall k, 2 * n <= Z.of_nat k -> buf m !! k = a0 !! k.
Proof.
  intros Hn Hfit Hlen.
  destruct (CreateCircle2_runs n cw a0 Hn Hfit Hlen) as (l & m & E & Hai & T).
  pose proof (quarter_points_length (F:=F) n cw ltac:(lia)) as Hl.
  exists l, m. split; [exact E|]. split; [exact Hai|].
  split; [|split].
  - rewrite (tracks_write_indices _ _ _ _ _ T), flatten_length.
    do 2 f_equal. lia.
  - apply (tracks_asserts _ _ _ _ _ T).
  - intros k Hk. eapply tracks_untouched; [exact T|].
    rewrite flatten_length. lia.
Qed.


End Cursor.

Lemma CreateCircle_cursor_witness :
  1 <= 7 < 4294967296
  /\ 2 * 7 <= Z.of_nat (length (fresh R 14))
  /\ exists l m,
    CreateCircle 7 (Some (fresh R 14)) false = Ran (Ok l m)
    /\ arrayIndex l = (if IsOdd 7 then 2 * 7 else 2 * 7 - 2)
    /\ fst <$> write_log (trace m) = Z.of_nat <$> seq 0 (Z.to_nat (2 * 7))
    /\ read_log (trace m) = [0; 1]
    /\ assert_log (trace m) = [7 <? 2147483648]
    /\ forall k, 2 * 7 <= Z.of_nat k -> buf m !! k = fresh R 14 !! k.
Proof.
  split; [lia|]. split; [simpl; lia|].
  apply (CreateCircle_cursor 7 false (fresh R 14)); [lia|simpl; lia].
Defined.

Lemma CreateCircle2_cursor_witness :
  1 <= 8 < 4294967296
  /\ (IsOdd 8 = true \/ 8 <= 2147483653)
  /\ 2 * 8 <= Z.of_nat (length (fresh R 16))
  /\ exists l m,
    CreateCircle2 8 (Some (fresh R 16)) false = Ran (Ok l m)
    /\ arrayIndex l = (if IsOdd 8 then 2 * 8 else 2 * 8 - 2)
    /\ fst <$> write_log (trace m) = Z.of_nat <$> seq 0 (Z.to_nat (2 * 8))
    /\ assert_log (trace m) = [8 <? 2147483648]
    /\ forall k, 2 * 8 <= Z.of_nat k -> buf m !! k = fresh R 16 !! k.
Proof.
  split; [lia|]. split; [right; lia|]. split; [simpl; lia|].
  apply (CreateCircle2_cursor 8 false (fresh R 16)); [lia|right; lia|simpl; lia].
Defined.

Section ZeroCount.
Context {F : Type} {ops : FloatOps F}.

(** C4, at the count 0.  With a count of 0 and an array neither function
    throws, and both store in the array.  [CreateCircle] stores the first
    point and enters its loop, whose bound [0 - 1] has wrapped to 4294967295:
    on an array of two scalars the next store, at index 2, is out of bounds.
    [CreateCircle2] stores the first and the last point and fails its own
    assertion, [4 == 0]. *)
Theorem zero_points_not_rejected (cw : bool) :
  CreateCircle 0 (Some (fresh F 2)) cw <> Throw invalid_argument
  /\ CreateCircle2 0 (Some (fresh F 4)) cw <> Throw invalid_argument
  /\ wrap32 (0 / 2 - 1) = 4294967295
  /\ (exists m,
       CreateCircle 0 (Some (fresh F 2)) cw = Ran (Undef (OutOfBounds 2) m)
       /\ fst <$> write_log (trace m) = [0; 1])
  /\ (exists l m,
       CreateCircle2 0 (Some (fresh F 4)) cw = Ran (Ok l m)
       /\ fst <$> write_log (trace m) = [0; 1; 2; 3]
       /\ assert_log (trace m) = [false]).
Proof.
  split; [discriminate|]. split; [discriminate|]. split; [reflexivity|].
  set (c := fcos (angle_of 0 cw)). set (s := fsin (angle_of 0 cw)).
  split.
  - destruct (first_point_tracks f1 f0 (fresh F 2) ltac:(simpl; lia))
      as (m & E & T).
    exists m. split; [|rewrite (tracks_write_indices _ _ _ _ _ T); reflexivity].
    unfold CreateCircle. cbv zeta. change (IsOdd 0) with false. cbv iota.
    change (wrap32 (0 / 2 - 1)) with 4294967295.
    unfold bind. rewrite E. rewrite for_up_step.
    destruct (Z_lt_dec 0 4294967295) as [_|H]; [|lia].
    unfold body_even, bind. cbv zeta. simpl arrayIndex.
    rewrite (store_out_of_bounds (fresh F 2) [f1; f0] [0; 1] [] m 2 _ T)
      by (simpl; lia).
    reflexivity.
  - destruct (first_point_tracks f1 f0 (fresh F 4) ltac:(simpl; lia))
      as (m & E & T).
    destruct (last_point_tracks 0 (fresh F 4) [rightmost] [0; 1] rightmost m T)
      as (m' & E' & T'); [simpl; lia|simpl; lia|].
    exists (frame rightmost 2), m'. split; [|split].
    + unfold CreateCircle2. cbv zeta. change (IsOdd 0) with false. cbv iota.
      change (to_int (0 / 2)) with 0. change (Z.quot 0 2) with 0.
      change (Z.rem 0 2) with 0. simpl negb. cbv iota.
      unfold bind. rewrite E. rewrite for_up_step.
      destruct (Z_lt_dec 0 0) as [H|_]; [lia|].
      rewrite for_down2_step.
      destruct (Z_gt_dec (0 - 3) 0) as [H|_]; [lia|].
      f_equal. exact E'.
    + rewrite (tracks_write_indices _ _ _ _ _ T'). reflexivity.
    + apply (tracks_asserts _ _ _ _ _ T').
Qed.

End ZeroCount.

Section Winding.
Local Open Scope R_scope.

Lemma cosIncr_counter n : cosIncr_of (F:=R) n false = cosIncr_of n true.
Proof.
  unfold cosIncr_of, angle_of. simpl.
  replace (- (PI * 2) / IZR n) with (- (PI * 2 / IZR n)) by (unfold Rdiv; ring).
  apply cos_neg.
Qed.

Lemma sinIncr_counter n : sinIncr_of (F:=R) n false = - sinIncr_of n true.
Proof.
  unfold sinIncr_of, angle_of. simpl.
  replace (- (PI * 2) / IZR n) with (- (PI * 2 / IZR n)) by (unfold Rdiv; ring).
  apply sin_neg.
Qed.

Lemma mirror_lr_invol (p : R * R) : mirror_lr (mirror_lr p) = p.
Proof. destruct p as [x y]. unfold mirror_lr. simpl. apply pair_eq; ring. Qed.

Lemma mirror_tb_invol (p : R * R) : mirror_tb (mirror_tb p) = p.
Proof. destruct p as [x y]. unfold mirror_tb. simpl. apply pair_eq; ring. Qed.

Lemma mirror_lr_top : mirror_lr top = top.
Proof. unfold mirror_lr, top. simpl. apply pair_eq; ring. Qed.

Lemma mirror_tb_rightmost : mirror_tb rightmost = rightmost.
Proof. unfold mirror_tb, rightmost. simpl. apply pair_eq; ring. Qed.

(** Turning the other way is turning the mirror image. *)
Lemma rot_mirror_lr (c s : R) (p : R * R) :
  rot c (- s) (mirror_lr p) = mirror_lr (rot c s p).
Proof.
  destruct p as [x y]. unfold mirror_lr. rewrite !rot_R. simpl.
  apply pair_eq; ring.
Qed.

Lemma rot_mirror_tb (c s : R) (p : R * R) :
  rot c (- s) (mirror_tb p) = mirror_tb (rot c s p).
Proof.
  destruct p as [x y]. unfold mirror_tb. rewrite !rot_R. simpl.
  apply pair_eq; ring.
Qed.

Lemma rot_n_counter_top (k : nat) (c s : R) :
  rot_n k c (- s) top = mirror_lr (rot_n k c s top).
Proof.
  induction k as [|k IH]; simpl.
  - symmetry. apply mirror_lr_top.
  - rewrite IH. apply rot_mirror_lr.
Qed.

Lemma rot_n_counter_rightmost (k : nat) (c s : R) :
  rot_n k c (- s) rightmost = mirror_tb (rot_n k c s rightmost).
Proof.
  induction k as [|k IH]; simpl.
  - symmetry. apply mirror_tb_rightmost.
  - rewrite IH. apply rot_mirror_tb.
Qed.

Lemma swapped_pairs_perm {A} (f g f' g' : nat -> A) (l : list nat) :
  (forall j, f' j = g j) -> (forall j, g' j = f j) ->
  Permutation (flat_map (fun j => [f j; g j]) l)
              (flat_map (fun j => [f' j; g' j]) l).
Proof.
  intros Hf Hg. induction l as [|a l IH]; simpl; [constructor|].
  rewrite Hf, Hg.
  etransitivity; [apply perm_swap|]. do 2 constructor. exact IH.
Qed.

Lemma odd_points_counter c s k :
  Permutation (odd_points c s k) (odd_points c (- s) k).
Proof.
  unfold odd_points. constructor. apply swapped_pairs_perm; intros j.
  - apply rot_n_counter_top.
  - rewrite rot_n_counter_top. apply mirror_lr_invol.
Qed.

Lemma even_points_counter c s k :
  Permutation (even_points c s k) (even_points c (- s) k).
Proof.
  unfold even_points. constructor. apply swapped_pairs_perm; intros j.
  - apply rot_n_counter_rightmost.
  - rewrite rot_n_counter_rightmost. apply mirror_tb_invol.
Qed.

Lemma readback_points_counter c s m k :
  Permutation (readback_points c s m k) (readback_points c (- s) m k).
Proof.
  unfold readback_points. apply swapped_pairs_perm; intros j.
  - rewrite rot_n_counter_rightmost. reflexivity.
  - rewrite rot_n_counter_rightmost, mirror_tb_invol. reflexivity.
Qed.

Lemma half_points_counter n :
  Permutation (half_points (F:=R) n true) (half_points n false).
Proof.
  unfold half_points. cbv zeta. rewrite cosIncr_counter, sinIncr_counter.
  destruct (IsOdd n).
  - apply odd_points_counter.
  - apply Permutation_app_tail, even_points_counter.
Qed.

Lemma quarter_points_counter n :
  Permutation (quarter_points (F:=R) n true) (quarter_points n false).
Proof.
  unfold quarter_points. cbv zeta. rewrite cosIncr_counter, sinIncr_counter.
  destruct (IsOdd n).
  - apply odd_points_counter.
  - apply Permutation_app; [apply even_points_counter|].
    apply Permutation_app_tail, readback_points_counter.
Qed.

End Winding.

(** C6.  In exact real arithmetic both functions emit the same points
    with [clockwise = true] and with [clockwise = false]: one list is a
    permutation of the other, so that they hold the same points. *)
Theorem winding_same_points (n : Z) (a0 : list (option R)) :
  1 <= n < 4294967296 ->
  2 * n <= Z.of_nat (length a0) ->
  Permutation (emitted (CreateCircle n (Some a0) true))
              (emitted (CreateCircle n (Some a0) false))
  /\ Permutation (emitted (CreateCircle2 n (Some a0) true))
                 (emitted (CreateCircle2 n (Some a0) false))
  /\ (forall p, In p (emitted (CreateCircle n (Some a0) true))
                <-> In p (emitted (CreateCircle n (Some a0) false)))
  /\ (forall p, In p (emitted (CreateCircle2 n (Some a0) true))
                <-> In p (emitted (CreateCircle2 n (Some a0) false)))
  /\ Z.of_nat (length (emitted (CreateCircle n (Some a0) true))) = n.
Proof.
  intros Hn Hlen.
  assert (P1 : Permutation (emitted (CreateCircle n (Some a0) true))
                           (emitted (CreateCircle n (Some a0) false))).
  { rewrite !CreateCircle_emitted by assumption. apply half_points_counter. }
  assert (P2 : Permutation (emitted (CreateCircle2 n (Some a0) true))
                           (emitted (CreateCircle2 n (Some a0) false))).
  { assert (Hcase : (IsOdd n = true \/ n <= 2147483653)
                    \/ (IsOdd n = false /\ 2147483654 <= n)).
    { destruct (IsOdd n); [left; left; reflexivity|].
      destruct (Z_le_gt_dec n 2147483653); [left; right; assumption|right; lia]. }
    destruct Hcase as [Hfit|[Hev Hbig]].
    - rewrite !CreateCircle2_emitted by assumption. apply quarter_points_counter.
    - rewrite !CreateCircle2_emitted_overflow by (assumption || lia).
      rewrite cosIncr_counter, sinIncr_counter. apply even_points_counter. }
  split; [exact P1|]. split; [exact P2|]. split; [|split].
  - intros p. split; apply Permutation_in; [exact P1|symmetry; exact P1].
  - intros p. split; apply Permutation_in; [exact P2|symmetry; exact P2].
  - rewrite CreateCircle_emitted by assumption. apply half_points_length. lia.
Qed.

Lemma winding_same_points_witness :
  1 <= 6 < 4294967296
  /\ 2 * 6 <= Z.of_nat (length (fresh R 12))
  /\ Permutation (emitted (CreateCircle 6 (Some (fresh R 12)) true))
                 (emitted (CreateCircle 6 (Some (fresh R 12)) false))
  /\ Permutation (emitted (CreateCircle2 6 (Some (fresh R 12)) true))
                 (emitted (CreateCircle2 6 (Some (fresh R 12)) false))
  /\ (forall p, In p (emitted (CreateCircle 6 (Some (fresh R 12)) true))
                <-> In p (emitted (CreateCircle 6 (Some (fresh R 12)) false)))
  /\ (forall p, In p (emitted (CreateCircle2 6 (Some (fresh R 12)) true))
                <-> In p (emitted (CreateCircle2 6 (Some (fresh R 12)) false)))
  /\ Z.of_nat (length (emitted (CreateCircle 6 (Some (fresh R 12)) true))) = 6.
Proof.
  split; [lia|]. split; [simpl; lia|].
  apply (winding_same_points 6 (fresh R 12)); [lia|simpl; lia].
Defined.

Section Four.
Context {F : Type} {ops : FloatOps F}.

(** The points of [CreateCircle] for 4 points: the first one, one rotated
    point with its mirror image, the last one. *)
Lemma half_points_4 (cw : bool) :
  let p := rot (cosIncr_of 4 cw) (sinIncr_of 4 cw) (f1, f0) in
  half_points (F:=F) 4 cw = [(f1, f0); p; mirror_tb p; (fneg f1, f0)].
Proof. reflexivity. Qed.

(** C7, as amended.  For 4 points and [clockwise = true], [CreateCircle]
    emits [(1, 0)] first, its loop runs once (4 / 2 - 1 = 1) and emits the
    rotated point and its mirror image [(x, -y)], and the fixed point
    [(-1, 0)] comes last: 4 points, among them one pair of mirror images.
    This holds in every floating-point type. *)
Theorem four_points_clockwise (a0 : list (option F)) :
  8 <= Z.of_nat (length a0) ->
  let p := rot (cosIncr_of 4 true) (sinIncr_of 4 true) (f1, f0) in
  exists l m,
    CreateCircle 4 (Some a0) true = Ran (Ok l m)
    /\ iterations l = 1
    /\ emitted (CreateCircle 4 (Some a0) true)
       = [(f1, f0); p; mirror_tb p; (fneg f1, f0)]
    /\ vertex (buf m) 0 = Some (f1, f0)
    /\ vertex (buf m) 1 = Some p
    /\ vertex (buf m) 2 = Some (mirror_tb p)
    /\ vertex (buf m) 3 = Some (fneg f1, f0).
Proof.
  intros Hlen p.
  destruct (CreateCircle_runs 4 true a0 ltac:(lia) ltac:(lia)) as (l & m & E & Hai & T).
  exists l, m. split; [exact E|].
  change (IsOdd 4) with false in Hai. cbv iota in Hai.
  split; [unfold iterations; rewrite Hai; reflexivity|].
  rewrite (half_points_4 true) in T. fold p in T.
  split; [rewrite CreateCircle_emitted by lia; apply half_points_4|].
  repeat split; eapply tracks_vertex; try exact T; reflexivity.
Qed.

End Four.

Lemma four_points_clockwise_witness :
  8 <= Z.of_nat (length (fresh R 8))
  /\ let p := rot (cosIncr_of 4 true) (sinIncr_of 4 true) (f1, f0) in
     exists l m,
       CreateCircle 4 (Some (fresh R 8)) true = Ran (Ok l m)
       /\ iterations l = 1
       /\ emitted (CreateCircle 4 (Some (fresh R 8)) true)
          = [(f1, f0); p; mirror_tb p; (fneg f1, f0)]
       /\ vertex (buf m) 0 = Some (f1, f0)
       /\ vertex (buf m) 1 = Some p
       /\ vertex (buf m) 2 = Some (mirror_tb p)
       /\ vertex (buf m) 3 = Some (fneg f1, f0).
Proof.
  split; [simpl; lia|].
  apply (four_points_clockwise (F:=R) (fresh R 8)). simpl; lia.
Defined.

(** C7, counterexample.  For 4 points the loop of [CreateCircle] does not
    run 0 times: no run returns with the cursor still on 2, where the first
    point left it. *)
Lemma four_points_loop_not_skipped :
  ~ (exists l m,
       CreateCircle 4 (Some (fresh R 8)) true = Ran (Ok l m)
       /\ iterations l = 0).
Proof.
  intros (l & m & E & Hit).
  destruct (CreateCircle_runs 4 true (fresh R 8) ltac:(lia) ltac:(simpl; lia))
    as (l' & m' & E' & Hai & _).
  rewrite E in E'. inversion E'; subst l' m'.
  change (IsOdd 4) with false in Hai. cbv iota in Hai.
  unfold iterations in Hit. rewrite Hai in Hit. discriminate.
Qed.

Section Half.
Local Open Scope R_scope.

(** Half of the steps make half a turn. *)
Lemma half_turn (n : Z) (cw : bool) :
  (2 <= n)%Z -> IsOdd n = false ->
  let A := INR (Z.to_nat (n / 2)) * angle_of n cw in
  cos A = -1 /\ sin A = 0.
Proof.
  intros Hn Hev. apply IsOdd_false in Hev. cbv zeta.
  assert (Hh : INR (Z.to_nat (n / 2)) = IZR (n / 2)).
  { rewrite INR_IZR_INZ, Z2Nat.id by lia. reflexivity. }
  assert (Hn2 : IZR n = 2 * IZR (n / 2)).
  { rewrite <- mult_IZR. f_equal. lia. }
  assert (Hpos : IZR (n / 2) <> 0).
  { apply not_0_IZR. lia. }
  rewrite Hh. unfold angle_of. simpl. rewrite Hn2.
  destruct cw.
  - replace (IZR (n / 2) * (PI * 2 / (2 * IZR (n / 2)))) with PI by (field; exact Hpos).
    split; [apply cos_PI|apply sin_PI].
  - replace (IZR (n / 2) * (- (PI * 2) / (2 * IZR (n / 2)))) with (- PI)
      by (field; exact Hpos).
    rewrite cos_neg, sin_neg, cos_PI, sin_PI. split; ring.
Qed.

(** The mirror image of the [j]-th point is the point [j] steps before half
    a turn. *)
Lemma mirror_is_rotation (n : Z) (cw : bool) (j : nat) :
  (2 <= n)%Z -> IsOdd n = false ->
  (j <= Z.to_nat (n / 2))%nat ->
  let c := cosIncr_of n cw in
  let s := sinIncr_of n cw in
  mirror_lr (rot_n j c s rightmost) = rot_n (Z.to_nat (n / 2) - j) c s rightmost.
Proof.
  intros Hn Hev Hj c s. subst c s. unfold cosIncr_of, sinIncr_of. simpl.
  destruct (half_turn n cw Hn Hev) as [Hc Hs].
  rewrite !rot_n_rightmost. unfold mirror_lr. simpl.
  rewrite minus_INR by exact Hj.
  replace ((INR (Z.to_nat (n / 2)) - INR j) * angle_of n cw)
    with (INR (Z.to_nat (n / 2)) * angle_of n cw - INR j * angle_of n cw) by ring.
  rewrite cos_minus, sin_minus, Hc, Hs.
  apply pair_eq; ring.
Qed.

Lemma mirror_lr_tb (p : R * R) : mirror_lr (mirror_tb p) = mirror_tb (mirror_lr p).
Proof. destruct p. reflexivity. Qed.

Lemma flat_map_down {A} (f g : nat -> list A) (H m : nat) :
  (m < H)%nat ->
  (forall j, (1 <= j <= m)%nat -> f j = g (H - j)%nat) ->
  flat_map f (rev (seq 1 m)) = flat_map g (seq (H - m) m).
Proof.
  intros Hm Hfg. induction m as [|m IH]; [reflexivity|].
  rewrite seq_S, rev_app_distr. simpl rev. simpl flat_map.
  rewrite IH by (try lia; intros; apply Hfg; lia).
  rewrite Hfg by lia.
  replace (S (H - S m)) with (H - m)%nat by lia. reflexivity.
Qed.

(** In exact arithmetic the two functions emit the same points in the same
    order for an even count. *)
Lemma quarter_points_half (n : Z) (cw : bool) :
  (2 <= n)%Z -> IsOdd n = false ->
  quarter_points (F:=R) n cw = half_points n cw.
Proof.
  intros Hn Hev. unfold quarter_points, half_points. cbv zeta. rewrite Hev.
  set (c := cosIncr_of n cw). set (s := sinIncr_of n cw).
  pose proof (IsOdd_false n Hev) as Hmod.
  set (H := Z.to_nat (n / 2)).
  assert (HK : (quarter_steps n + readback_steps n + 1 = H)%nat)
    by (unfold quarter_steps, readback_steps, H; lia).
  rewrite app_assoc. f_equal.
  replace (Z.to_nat (n / 2 - 1)) with (quarter_steps n + readback_steps n)%nat
    by (unfold quarter_steps, readback_steps; lia).
  unfold even_points, readback_points.
  rewrite Nat.sub_0_r, seq_app, flat_map_app. simpl. do 2 f_equal.
  rewrite (flat_map_down _
             (fun j => [rot_n j c s rightmost; mirror_tb (rot_n j c s rightmost)])
             H (readback_steps n)).
  - f_equal. f_equal. lia.
  - lia.
  - intros j Hj. rewrite mirror_lr_tb.
    subst c s. rewrite (mirror_is_rotation n cw j Hn Hev) by (fold H; lia).
    reflexivity.
Qed.

End Half.

(** X3.  The quarter-symmetry function emits the points of the half-symmetry
    function, in the same order, for every even count whose read-back
    indices fit in [int]. *)
Theorem quarter_emits_half (n : Z) (cw : bool) (a0 : list (option R)) :
  2 <= n <= 2147483652 ->
  IsOdd n = false ->
  2 * n <= Z.of_nat (length a0) ->
  emitted (CreateCircle2 n (Some a0) cw) = emitted (CreateCircle n (Some a0) cw)
  /\ Permutation (emitted (CreateCircle2 n (Some a0) cw))
                 (emitted (CreateCircle n (Some a0) cw))
  /\ Z.of_nat (length (emitted (CreateCircle2 n (Some a0) cw))) = n.
Proof.
  intros Hn Hev Hlen.
  rewrite CreateCircle2_emitted by (try right; lia).
  rewrite CreateCircle_emitted by lia.
  rewrite quarter_points_half by (assumption || lia).
  split; [reflexivity|]. split; [reflexivity|].
  apply half_points_length. lia.
Qed.

Lemma quarter_emits_half_witness :
  2 <= 12 <= 2147483652
  /\ IsOdd 12 = false
  /\ 2 * 12 <= Z.of_nat (length (fresh R 24))
  /\ emitted (CreateCircle2 12 (Some (fresh R 24)) false)
     = emitted (CreateCircle 12 (Some (fresh R 24)) false)
  /\ Permutation (emitted (CreateCircle2 12 (Some (fresh R 24)) false))
                 (emitted (CreateCircle 12 (Some (fresh R 24)) false))
  /\ Z.of_nat (length (emitted (CreateCircle2 12 (Some (fresh R 24)) false))) = 12.
Proof.
  split; [lia|]. split; [reflexivity|]. split; [simpl; lia|].
  apply (quarter_emits_half 12 false (fresh R 24)); [lia|reflexivity|simpl; lia].
Defined.

Lemma first_pass_count {F} {ops : FloatOps F} (c s : F) (n : Z) :
  0 <= n ->
  Z.of_nat (length (even_points c s (quarter_steps n))) = 1 + 2 * (n / 2 / 2).
Proof. intros Hn. rewrite even_points_length. unfold quarter_steps. lia. Qed.

(** For an even count from 2^31 + 6 on, [CreateCircle2] stops after its
    first loop and has emitted fewer points than [CreateCircle]. *)
Lemma quarter_stops_short (n : Z) (cw : bool) (a0 : list (option R)) :
  IsOdd n = false ->
  2147483654 <= n < 4294967296 ->
  2 * n <= Z.of_nat (length a0) ->
  (exists m, CreateCircle2 n (Some a0) cw = Ran (Undef SignedOverflow m))
  /\ Z.of_nat (length (emitted (CreateCircle2 n (Some a0) cw))) = 1 + 2 * (n / 2 / 2)
  /\ Z.of_nat (length (emitted (CreateCircle n (Some a0) cw))) = n
  /\ ~ Permutation (emitted (CreateCircle2 n (Some a0) cw))
                   (emitted (CreateCircle n (Some a0) cw)).
Proof.
  intros Hev Hn Hlen.
  assert (H2 : Z.of_nat (length (emitted (CreateCircle2 n (Some a0) cw)))
               = 1 + 2 * (n / 2 / 2)).
  { rewrite CreateCircle2_emitted_overflow by assumption.
    apply first_pass_count. lia. }
  assert (H1 : Z.of_nat (length (emitted (CreateCircle n (Some a0) cw))) = n).
  { rewrite CreateCircle_emitted by (assumption || lia).
    apply half_points_length. lia. }
  split; [|split; [exact H2|split; [exact H1|]]].
  - destruct (CreateCircle2_overflows n cw a0 Hev Hn Hlen) as (m & E & _).
    exists m. exact E.
  - intros HP. apply Permutation_length in HP. lia.
Qed.

(** C3, at the count 2^31 + 6.  [CreateCircle2] stops on a signed
    overflow after its first loop, having emitted 1073741827 points, while
    [CreateCircle] emits all 2147483654: the two lists are not permutations
    of each other. *)
Theorem quarter_stops_short_at_2_31_plus_6 (cw : bool) :
  (exists m,
     CreateCircle2 2147483654 (Some (fresh R 4294967308)) cw
     = Ran (Undef SignedOverflow m))
  /\ Z.of_nat (length (emitted (CreateCircle2 2147483654
                                  (Some (fresh R 4294967308)) cw)))
     = 1073741827
  /\ Z.of_nat (length (emitted (CreateCircle 2147483654
                                  (Some (fresh R 4294967308)) cw)))
     = 2147483654
  /\ ~ Permutation
         (emitted (CreateCircle2 2147483654 (Some (fresh R 4294967308)) cw))
         (emitted (CreateCircle 2147483654 (Some (fresh R 4294967308)) cw)).
Proof.
  assert (Hn : 2147483654 <= 2147483654 < 4294967296) by lia.
  assert (Hk : 0 <= 4294967308) by lia.
  exact (quarter_stops_short 2147483654 cw (fresh R 4294967308) eq_refl Hn
           (fresh_room R 4294967308 Hk)).
Qed.

Section Readback.
Context {F : Type} {ops : FloatOps F}.

Lemma readback_reads_bounds (m K : nat) :
  (m <= K)%nat ->
  Forall (fun j => exists i,
            (j = i * 2 \/ j = i * 2 + 1)
            /\ Z.odd i = true
            /\ 1 <= i <= 2 * Z.of_nat K
            /\ 0 <= j < 2 + 4 * Z.of_nat K)
    (readback_reads m 0).
Proof.
  intros HmK. unfold readback_reads. rewrite Nat.sub_0_r.
  apply Forall_flat_map, Forall_forall. intros j Hj.
  apply list_elem_of_In, in_rev, in_seq in Hj.
  assert (Hodd : Z.odd (2 * Z.of_nat j - 1) = true).
  { replace (2 * Z.of_nat j - 1) with (2 * (Z.of_nat j - 1) + 1) by lia.
    apply Z.odd_odd. }
  repeat constructor; exists (2 * Z.of_nat j - 1);
    (split; [auto|split; [exact Hodd|lia]]).
Qed.

(** For an even count from 2^31 + 6 on, [CreateCircle2] stops on the first
    index of the read-back, before any read of the read-back. *)
Lemma readback_overflow_run (n : Z) (cw : bool) (a0 : list (option F)) :
  IsOdd n = false ->
  2147483654 <= n < 4294967296 ->
  2 * n <= Z.of_nat (length a0) ->
  exists m,
    CreateCircle2 n (Some a0) cw = Ran (Undef SignedOverflow m)
    /\ read_log (trace m) = [0; 1]
    /\ Z.of_nat (length (write_log (trace m))) = 2 * (1 + 2 * (n / 2 / 2)).
Proof.
  intros Hev Hn Hlen.
  destruct (CreateCircle2_overflows n cw a0 Hev Hn Hlen) as (m & E & T).
  exists m. split; [exact E|]. split; [apply (tracks_reads _ _ _ _ _ T)|].
  rewrite (tracks_write_count _ _ _ _ _ T), first_pass_count by lia.
  reflexivity.
Qed.

(** C9, at the count 2^31 + 6.  The first vertex the read-back reads is
    1073741825: it is odd and at most [2 * (halfN / 2)], as claimed, but its
    offset [i * 2] is not a value of [int]; the call stops there, before any
    read of the read-back (the log holds the reads of the first point only). *)
Theorem readback_offset_overflows (cw : bool) :
  (if negb (Z.rem (to_int (2147483654 / 2)) 2 =? 0)
   then to_int (2147483654 / 2) - 2 else to_int (2147483654 / 2) - 3)
  = 1073741825
  /\ Z.odd 1073741825 = true
  /\ 1 <= 1073741825 <= 2 * (2147483654 / 2 / 2)
  /\ in_int (1073741825 * 2) = false
  /\ exists m,
       CreateCircle2 2147483654 (Some (fresh F 4294967308)) cw
       = Ran (Undef SignedOverflow m)
       /\ read_log (trace m) = [0; 1]
       /\ Z.of_nat (length (write_log (trace m))) = 2147483654.
Proof.
  assert (Hn : 2147483654 <= 2147483654 < 4294967296) by lia.
  assert (Hk : 0 <= 4294967308) by lia.
  assert (Hi : 1 <= 1073741825 <= 2 * (2147483654 / 2 / 2)) by (split; discriminate).
  split; [reflexivity|]. split; [reflexivity|]. split; [exact Hi|].
  split; [reflexivity|].
  exact (readback_overflow_run 2147483654 cw (fresh F 4294967308) eq_refl Hn
           (fresh_room F 4294967308 Hk)).
Qed.

(** X4.  The read-back of [CreateCircle2] for an even count whose indices fit in
    [int]: after the reads of the first point, every index read is that of a
    scalar of an odd vertex stored by the first loop, and the call returns. *)
Theorem readback_reads_first_pass (n : Z) (cw : bool) (a0 : list (option F)) :
  2 <= n <= 2147483652 ->
  IsOdd n = false ->
  2 * n <= Z.of_nat (length a0) ->
  exists l m,
    CreateCircle2 n (Some a0) cw = Ran (Ok l m)
    /\ read_log (trace m) = [0; 1] ++ readback_reads (readback_steps n) 0
    /\ Forall (fun j => exists i,
                 (j = i * 2 \/ j = i * 2 + 1)
                 /\ Z.odd i = true
                 /\ 1 <= i <= 2 * (n / 2 / 2)
                 /\ 0 <= j < 2 + 4 * (n / 2 / 2))
         (drop 2 (read_log (trace m)))
    /\ fst <$> write_log (trace m) = Z.of_nat <$> seq 0 (Z.to_nat (2 * n)).
Proof.
  intros Hn Hev Hlen.
  destruct (CreateCircle2_runs n cw a0 ltac:(lia) ltac:(right; lia) Hlen)
    as (l & m & E & _ & T).
  rewrite Hev in T.
  exists l, m. split; [exact E|].
  pose proof (tracks_reads _ _ _ _ _ T) as Hr.
  split; [exact Hr|]. split.
  - rewrite Hr. change (drop 2 ([0; 1] ++ ?l)) with l.
    pose proof (readback_reads_bounds (readback_steps n) (quarter_steps n)) as H.
    replace (Z.of_nat (quarter_steps n)) with (n / 2 / 2) in H
      by (unfold quarter_steps; lia).
    apply H. unfold readback_steps, quarter_steps. lia.
  - rewrite (tracks_write_indices _ _ _ _ _ T), flatten_length.
    pose proof (quarter_points_length (F:=F) n cw ltac:(lia)).
    do 2 f_equal. lia.
Qed.

End Readback.

Lemma readback_reads_first_pass_witness :
  2 <= 10 <= 2147483652
  /\ IsOdd 10 = false
  /\ 2 * 10 <= Z.of_nat (length (fresh R 20))
  /\ exists l m,
    CreateCircle2 10 (Some (fresh R 20)) true = Ran (Ok l m)
    /\ read_log (trace m) = [0; 1] ++ readback_reads (readback_steps 10) 0
    /\ Forall (fun j => exists i,
                 (j = i * 2 \/ j = i * 2 + 1)
                 /\ Z.odd i = true
                 /\ 1 <= i <= 2 * (10 / 2 / 2)
                 /\ 0 <= j < 2 + 4 * (10 / 2 / 2))
         (drop 2 (read_log (trace m)))
    /\ fst <$> write_log (trace m) = Z.of_nat <$> seq 0 (Z.to_nat (2 * 10)).
Proof.
  split; [lia|]. split; [reflexivity|]. split; [simpl; lia|].
  apply (readback_reads_first_pass 10 true (fresh R 20));
    [lia|reflexivity|simpl; lia].
Defined.

(** * Further properties *)

Section Mirror.
Local Open Scope R_scope.

Lemma pair_flat_map_fmap {A B} (h : A -> B) (f g : nat -> A) (l : list nat) :
  h <$> flat_map (fun j => [f j; g j]) l
  = flat_map (fun j => [h (f j); h (g j)]) l.
Proof.
  induction l as [|a l IH]; [reflexivity|].
  simpl flat_map. rewrite !fmap_cons, IH. reflexivity.
Qed.

Lemma pair_flat_map_ext {A} (f g f' g' : nat -> A) (l : list nat) :
  (forall j, f j = f' j) -> (forall j, g j = g' j) ->
  flat_map (fun j => [f j; g j]) l = flat_map (fun j => [f' j; g' j]) l.
Proof.
  intros Hf Hg. induction l as [|a l IH]; simpl; [reflexivity|].
  now rewrite Hf, Hg, IH.
Qed.

Lemma mirror_lr_leftmost : mirror_lr leftmost = (1, 0).
Proof. unfold mirror_lr, leftmost. simpl. apply pair_eq; ring. Qed.

Lemma mirror_tb_leftmost : mirror_tb leftmost = leftmost.
Proof. unfold mirror_tb, leftmost. simpl. apply pair_eq; ring. Qed.

Lemma odd_points_mirror c s k :
  odd_points c (- s) k = mirror_lr <$> odd_points c s k.
Proof.
  unfold odd_points. rewrite fmap_cons, mirror_lr_top, pair_flat_map_fmap.
  f_equal. apply pair_flat_map_ext; intros j; now rewrite rot_n_counter_top.
Qed.

Lemma even_points_mirror c s k :
  even_points c (- s) k = mirror_tb <$> even_points c s k.
Proof.
  unfold even_points. rewrite fmap_cons, mirror_tb_rightmost, pair_flat_map_fmap.
  f_equal. apply pair_flat_map_ext; intros j; now rewrite rot_n_counter_rightmost.
Qed.

Lemma mirror_tb_lr (p : R * R) : mirror_tb (mirror_lr p) = mirror_lr (mirror_tb p).
Proof. destruct p. reflexivity. Qed.

Lemma readback_points_mirror c s m k :
  readback_points c (- s) m k = mirror_tb <$> readback_points c s m k.
Proof.
  unfold readback_points. rewrite pair_flat_map_fmap.
  apply pair_flat_map_ext; intros j; rewrite rot_n_counter_rightmost.
  - now rewrite mirror_tb_lr.
  - now rewrite !mirror_tb_lr.
Qed.


Lemma half_points_mirror n :
  half_points (F:=R) n false = winding_mirror n <$> half_points n true.
Proof.
  unfold half_points, winding_mirror. cbv zeta.
  rewrite cosIncr_counter, sinIncr_counter. destruct (IsOdd n).
  - apply odd_points_mirror.
  - rewrite fmap_app, even_points_mirror. simpl.
    now rewrite mirror_tb_leftmost.
Qed.

Lemma quarter_points_mirror n :
  quarter_points (F:=R) n false = winding_mirror n <$> quarter_points n true.
Proof.
  unfold quarter_points, winding_mirror. cbv zeta.
  rewrite cosIncr_counter, sinIncr_counter. destruct (IsOdd n).
  - apply odd_points_mirror.
  - rewrite !fmap_app, even_points_mirror, readback_points_mirror. simpl.
    now rewrite mirror_tb_leftmost.
Qed.

End Mirror.

(** X7.  The winding flag mirrors every vertex in place. *)
Theorem winding_mirrors_each_vertex (n : Z) (a0 : list (option R)) :
  1 <= n < 4294967296 ->
  2 * n <= Z.of_nat (length a0) ->
  emitted (CreateCircle n (Some a0) false)
  = winding_mirror n <$> emitted (CreateCircle n (Some a0) true)
  /\ emitted (CreateCircle2 n (Some a0) false)
     = winding_mirror n <$> emitted (CreateCircle2 n (Some a0) true).
Proof.
  intros Hn Hlen. split.
  - rewrite !CreateCircle_emitted by assumption. apply half_points_mirror.
  - assert (Hcase : (IsOdd n = true \/ n <= 2147483653)
                    \/ (IsOdd n = false /\ 2147483654 <= n)).
    { destruct (IsOdd n); [left; left; reflexivity|].
      destruct (Z_le_gt_dec n 2147483653); [left; right; assumption|right; lia]. }
    destruct Hcase as [Hfit|[Hev Hbig]].
    + rewrite !CreateCircle2_emitted by assumption. apply quarter_points_mirror.
    + rewrite !CreateCircle2_emitted_overflow by (assumption || lia).
      rewrite cosIncr_counter, sinIncr_counter.
      unfold winding_mirror. rewrite Hev. apply even_points_mirror.
Qed.

Lemma winding_mirrors_each_vertex_witness :
  1 <= 9 < 4294967296
  /\ 2 * 9 <= Z.of_nat (length (fresh R 18))
  /\ emitted (CreateCircle 9 (Some (fresh R 18)) false)
     = winding_mirror 9 <$> emitted (CreateCircle 9 (Some (fresh R 18)) true)
  /\ emitted (CreateCircle2 9 (Some (fresh R 18)) false)
     = winding_mirror 9 <$> emitted (CreateCircle2 9 (Some (fresh R 18)) true).
Proof.
  split; [lia|]. split; [simpl; lia|].
  apply (winding_mirrors_each_vertex 9 (fresh R 18)); [lia|simpl; lia].
Defined.

Section Polygon.
Local Open Scope R_scope.

(** All the steps make a full turn. *)
Lemma full_turn (n : Z) (cw : bool) :
  (1 <= n)%Z ->
  let A := INR (Z.to_nat n) * angle_of n cw in
  cos A = 1 /\ sin A = 0.
Proof.
  intros Hn. cbv zeta.
  assert (Hh : INR (Z.to_nat n) = IZR n).
  { rewrite INR_IZR_INZ, Z2Nat.id by lia. reflexivity. }
  assert (Hpos : IZR n <> 0) by (apply not_0_IZR; lia).
  rewrite Hh. unfold angle_of. simpl.
  destruct cw.
  - replace (IZR n * (PI * 2 / IZR n)) with (2 * PI) by (field; exact Hpos).
    split; [apply cos_2PI|apply sin_2PI].
  - replace (IZR n * (- (PI * 2) / IZR n)) with (- (2 * PI)) by (field; exact Hpos).
    rewrite cos_neg, sin_neg, cos_2PI, sin_2PI. split; ring.
Qed.

Lemma polygon_vertex_odd n cw k :
  IsOdd n = true ->
  polygon_vertex n cw k = rot_n k (cosIncr_of n cw) (sinIncr_of n cw) top.
Proof.
  intros H. unfold polygon_vertex, cosIncr_of, sinIncr_of. rewrite H. simpl.
  symmetry. apply rot_n_top.
Qed.

Lemma polygon_vertex_even n cw k :
  IsOdd n = false ->
  polygon_vertex n cw k = rot_n k (cosIncr_of n cw) (sinIncr_of n cw) rightmost.
Proof.
  intros H. unfold polygon_vertex, cosIncr_of, sinIncr_of. rewrite H. simpl.
  symmetry. apply rot_n_rightmost.
Qed.

(** The mirror image of vertex [j] is vertex [n - j]. *)
Lemma polygon_vertex_mirror n cw j :
  (1 <= n)%Z -> (j <= Z.to_nat n)%nat ->
  polygon_vertex n cw (Z.to_nat n - j) = winding_mirror n (polygon_vertex n cw j).
Proof.
  intros Hn Hj. destruct (full_turn n cw Hn) as [Hc Hs].
  unfold polygon_vertex, winding_mirror. cbv zeta.
  rewrite minus_INR by exact Hj.
  replace ((INR (Z.to_nat n) - INR j) * angle_of n cw)
    with (INR (Z.to_nat n) * angle_of n cw - INR j * angle_of n cw) by ring.
  rewrite cos_minus, sin_minus, Hc, Hs.
  destruct (IsOdd n); unfold mirror_lr, mirror_tb; simpl; apply pair_eq; ring.
Qed.

Lemma pair_flat_map_perm {A} (f g : nat -> A) (l : list nat) :
  Permutation (flat_map (fun j => [f j; g j]) l) ((f <$> l) ++ (g <$> l)).
Proof.
  induction l as [|a l IH]; [reflexivity|].
  simpl flat_map. rewrite !fmap_cons. simpl.
  constructor. rewrite IH. apply Permutation_middle.
Qed.

Lemma fmap_sub_seq (H m : nat) :
  (m < H)%nat ->
  (fun j => (H - j)%nat) <$> seq 1 m = rev (seq (H - m) m).
Proof.
  intros Hm. induction m as [|m IH]; [reflexivity|].
  rewrite seq_S, fmap_app, IH by lia. simpl.
  replace (S (H - S m)) with (H - m)%nat by lia. reflexivity.
Qed.

(** The mirrored halves of a branch: the points [1 .. h] and their mirror
    images are the vertices [1 .. h] and [n - h .. n - 1]. *)
Lemma mirrored_pairs_perm n cw (h : nat) :
  (1 <= n)%Z -> (h < Z.to_nat n)%nat ->
  Permutation
    (flat_map (fun j => [polygon_vertex n cw j;
                         winding_mirror n (polygon_vertex n cw j)]) (seq 1 h))
    ((polygon_vertex n cw <$> seq 1 h)
       ++ (polygon_vertex n cw <$> seq (Z.to_nat n - h) h)).
Proof.
  intros Hn Hh. rewrite pair_flat_map_perm.
  apply Permutation_app_head.
  transitivity (polygon_vertex n cw <$> rev (seq (Z.to_nat n - h) h)).
  - rewrite <- fmap_sub_seq by exact Hh.
    rewrite <- list_fmap_compose.
    apply eq_subrelation; [typeclasses eauto|].
    apply list_fmap_ext. intros i j Hj. simpl.
    apply lookup_seq in Hj.
    symmetry. apply polygon_vertex_mirror; lia.
  - apply fmap_Permutation. symmetry. apply Permutation_rev.
Qed.

Lemma half_points_polygon n cw :
  (1 <= n)%Z -> Permutation (half_points n cw) (polygon n cw).
Proof.
  intros Hn. unfold half_points, polygon. cbv zeta.
  destruct (IsOdd n) eqn:E.
  - pose proof (IsOdd_true n E) as Hmod.
    set (h := Z.to_nat (n / 2)).
    assert (HN : Z.to_nat n = (1 + h + h)%nat) by (unfold h; lia).
    unfold odd_points.
    rewrite (pair_flat_map_ext _ _ (polygon_vertex n cw)
               (fun j => winding_mirror n (polygon_vertex n cw j))).
    + rewrite mirrored_pairs_perm by lia.
      rewrite HN. replace (1 + h + h - h)%nat with (1 + h)%nat by lia.
      rewrite <- fmap_app, <- seq_app.
      replace top with (polygon_vertex n cw 0).
      * reflexivity.
      * rewrite polygon_vertex_odd by exact E. reflexivity.
    + intros j. now rewrite polygon_vertex_odd.
    + intros j. unfold winding_mirror. rewrite E. now rewrite polygon_vertex_odd.
  - pose proof (IsOdd_false n E) as Hmod.
    set (h := Z.to_nat (n / 2 - 1)).
    assert (HN : Z.to_nat n = (1 + h + 1 + h)%nat) by (unfold h; lia).
    unfold even_points.
    rewrite (pair_flat_map_ext _ _ (polygon_vertex n cw)
               (fun j => winding_mirror n (polygon_vertex n cw j))).
    + rewrite mirrored_pairs_perm by lia.
      rewrite HN. replace (1 + h + 1 + h - h)%nat with (1 + h + 1)%nat by lia.
      replace rightmost with (polygon_vertex n cw 0)
        by (rewrite polygon_vertex_even by exact E; reflexivity).
      replace leftmost with (polygon_vertex n cw (1 + h)).
      * rewrite (seq_app (1 + h + 1) h 0), (seq_app (1 + h) 1 0), (seq_app 1 h 0).
        rewrite !fmap_app. simpl.
        constructor. rewrite <- !app_assoc.
        apply Permutation_app_head.
        replace (S (h + 1)) with (1 + h + 1)%nat by lia.
        symmetry. apply Permutation_cons_append.
      * destruct (half_turn n cw ltac:(lia) E) as [Hc Hs].
        unfold polygon_vertex. rewrite E. cbv zeta.
        replace (1 + h)%nat with (Z.to_nat (n / 2)) by (unfold h; lia).
        rewrite Hc, Hs. unfold leftmost. simpl. apply pair_eq; ring.
    + intros j. now rewrite polygon_vertex_even.
    + intros j. unfold winding_mirror. rewrite E. now rewrite polygon_vertex_even.
Qed.

End Polygon.

(** X6.  The points [CreateCircle] emits are the vertices of the regular polygon. *)
Theorem emits_regular_polygon (n : Z) (cw : bool) (a0 : list (option R)) :
  1 <= n < 4294967296 ->
  2 * n <= Z.of_nat (length a0) ->
  Permutation (emitted (CreateCircle n (Some a0) cw)) (polygon n cw)
  /\ Z.of_nat (length (polygon n cw)) = n.
Proof.
  intros Hn Hlen. split.
  - rewrite CreateCircle_emitted by assumption. apply half_points_polygon. lia.
  - unfold polygon. rewrite length_fmap, length_seq. lia.
Qed.

Lemma emits_regular_polygon_witness :
  1 <= 12 < 4294967296
  /\ 2 * 12 <= Z.of_nat (length (fresh R 24))
  /\ Permutation (emitted (CreateCircle 12 (Some (fresh R 24)) true)) (polygon 12 true)
  /\ Z.of_nat (length (polygon 12 true)) = 12.
Proof.
  split; [lia|]. split; [simpl; lia|].
  apply (emits_regular_polygon 12 true (fresh R 24)); [lia|simpl; lia].
Defined.

(** X10.  The vertices of the even branch of [CreateCircle], in closed form. *)
Theorem even_vertices (n : Z) (cw : bool) (a0 : list (option R)) :
  2 <= n < 4294967296 ->
  IsOdd n = false ->
  2 * n <= Z.of_nat (length a0) ->
  exists l m,
    CreateCircle n (Some a0) cw = Ran (Ok l m)
    /\ vertex (buf m) 0 = Some (1, 0)%R
    /\ vertex (buf m) (Z.to_nat n - 1) = Some (- (1), 0)%R
    /\ forall j : nat, (1 <= j)%nat -> Z.of_nat j < n / 2 ->
       let a := (INR j * (if cw then PI * 2 / IZR n else - (PI * 2) / IZR n))%R in
       vertex (buf m) (2 * j - 1) = Some (cos a, - sin a)%R
       /\ vertex (buf m) (2 * j) = Some (cos a, sin a).
Proof.
  intros Hn Hev Hlen.
  destruct (CreateCircle_runs n cw a0 ltac:(lia) Hlen) as (l & m & E & _ & T).
  exists l, m. split; [exact E|].
  pose proof (IsOdd_false n Hev) as Hmod.
  unfold half_points in T. rewrite Hev in T. cbv zeta in T.
  set (K := Z.to_nat (n / 2 - 1)) in *.
  split; [|split].
  - eapply tracks_vertex; [exact T|]. reflexivity.
  - eapply tracks_vertex; [exact T|].
    rewrite lookup_app_r by (rewrite even_points_length; lia).
    rewrite even_points_length.
    replace (Z.to_nat n - 1 - (1 + 2 * K))%nat with 0%nat by lia. reflexivity.
  - intros j Hj1 Hj a.
    destruct (even_points_lookup (cosIncr_of n cw) (sinIncr_of n cw) K j) as [H1 H2];
      [lia|].
    assert (Hrot : rot_n j (cosIncr_of n cw) (sinIncr_of n cw) rightmost
                   = (cos a, - sin a)%R).
    { unfold cosIncr_of, sinIncr_of. simpl. rewrite rot_n_rightmost.
      unfold a, angle_of. simpl. reflexivity. }
    rewrite Hrot in H1, H2.
    split.
    + eapply tracks_vertex; [exact T|].
      rewrite lookup_app_l by (rewrite even_points_length; lia). exact H1.
    + eapply tracks_vertex; [exact T|].
      rewrite lookup_app_l by (rewrite even_points_length; lia).
      rewrite H2. unfold mirror_tb. simpl. rewrite Ropp_involutive. reflexivity.
Qed.

Lemma even_vertices_witness :
  2 <= 8 < 4294967296
  /\ IsOdd 8 = false
  /\ 2 * 8 <= Z.of_nat (length (fresh R 16))
  /\ exists l m,
    CreateCircle 8 (Some (fresh R 16)) false = Ran (Ok l m)
    /\ vertex (buf m) 0 = Some (1, 0)%R
    /\ vertex (buf m) (Z.to_nat 8 - 1) = Some (- (1), 0)%R
    /\ forall j : nat, (1 <= j)%nat -> Z.of_nat j < 8 / 2 ->
       let a := (INR j * (if false then PI * 2 / IZR 8 else - (PI * 2) / IZR 8))%R in
       vertex (buf m) (2 * j - 1) = Some (cos a, - sin a)%R
       /\ vertex (buf m) (2 * j) = Some (cos a, sin a).
Proof.
  split; [lia|]. split; [reflexivity|]. split; [simpl; lia|].
  apply (even_vertices 8 false (fresh R 16)); [lia|reflexivity|simpl; lia].
Defined.

Section Frame.
Context {F : Type} {ops : FloatOps F}.

Lemma filled_take (a0 : list (option F)) out :
  (length out <= length a0)%nat ->
  take (length out) (filled a0 out) = Some <$> out
  /\ drop (length out) (filled a0 out) = drop (length out) a0.
Proof.
  intros H. unfold filled. split.
  - rewrite take_app_le by (rewrite length_fmap; lia).
    apply take_ge. rewrite length_fmap. lia.
  - rewrite drop_app_ge by (rewrite length_fmap; lia).
    rewrite length_fmap, Nat.sub_diag. reflexivity.
Qed.

(** X9.  What [CreateCircle2] leaves in the array does not depend on what the
    array held, although the function reads the array. *)
Theorem CreateCircle2_overwrites (n : Z) (cw : bool) (a0 a1 : list (option F)) :
  1 <= n < 4294967296 ->
  IsOdd n = true \/ n <= 2147483653 ->
  2 * n <= Z.of_nat (length a0) ->
  2 * n <= Z.of_nat (length a1) ->
  exists l0 m0 l1 m1,
    CreateCircle2 n (Some a0) cw = Ran (Ok l0 m0)
    /\ CreateCircle2 n (Some a1) cw = Ran (Ok l1 m1)
    /\ take (Z.to_nat (2 * n)) (buf m0) = take (Z.to_nat (2 * n)) (buf m1)
    /\ Forall (fun c => c <> None) (take (Z.to_nat (2 * n)) (buf m0))
    /\ drop (Z.to_nat (2 * n)) (buf m0) = drop (Z.to_nat (2 * n)) a0
    /\ length (buf m0) = length a0.
Proof.
  intros Hn Hfit H0 H1.
  destruct (CreateCircle2_runs n cw a0 Hn Hfit H0) as (l0 & m0 & E0 & _ & T0).
  destruct (CreateCircle2_runs n cw a1 Hn Hfit H1) as (l1 & m1 & E1 & _ & T1).
  exists l0, m0, l1, m1. split; [exact E0|]. split; [exact E1|].
  pose proof (quarter_points_length (F:=F) n cw ltac:(lia)) as Hl.
  assert (Hout : length (flatten (quarter_points n cw)) = Z.to_nat (2 * n))
    by (rewrite flatten_length; lia).
  rewrite (tracks_buf _ _ _ _ _ T0), (tracks_buf _ _ _ _ _ T1), <- Hout.
  destruct (filled_take a0 (flatten (quarter_points n cw)) ltac:(lia)) as [Ht0 Hd0].
  destruct (filled_take a1 (flatten (quarter_points n cw)) ltac:(lia)) as [Ht1 _].
  rewrite Ht0, Ht1, Hd0. split; [reflexivity|]. split; [|split; [reflexivity|]].
  - apply Forall_fmap, Forall_forall. intros x _. discriminate.
  - apply filled_length. lia.
Qed.

(** X5.  [CreateCircle2] for every even count from 2^31 + 6 on: the first loop
    runs to its end and the read-back stops on its first index, before it
    reads anything (the log holds the reads of the first point only). *)
Theorem CreateCircle2_large_even_counts (n : Z) (cw : bool) (a0 : list (option F)) :
  IsOdd n = false ->
  2147483654 <= n < 4294967296 ->
  2 * n <= Z.of_nat (length a0) ->
  in_int ((to_int (n / 2) - 3) * 2) = false
  /\ exists m,
       CreateCircle2 n (Some a0) cw = Ran (Undef SignedOverflow m)
       /\ read_log (trace m) = [0; 1]
       /\ fst <$> write_log (trace m)
          = Z.of_nat <$> seq 0 (Z.to_nat (2 + 4 * (n / 2 / 2)))
       /\ 2 + 4 * (n / 2 / 2) < 2 * n.
Proof.
  intros Hev Hn Hlen. pose proof (IsOdd_false n Hev) as Hmod. split.
  - rewrite to_int_small by lia. unfold in_int, INT_MIN, INT_MAX.
    destruct (_ <=? 2147483647) eqn:E; [lia|]. apply andb_false_r.
  - destruct (CreateCircle2_overflows n cw a0 Hev Hn Hlen) as (m & E & T).
    exists m. split; [exact E|]. split; [apply (tracks_reads _ _ _ _ _ T)|].
    split; [|lia].
    rewrite (tracks_write_indices _ _ _ _ _ T), flatten_length, even_points_length.
    do 2 f_equal. unfold quarter_steps. lia.
Qed.

End Frame.

Lemma CreateCircle2_overwrites_witness :
  1 <= 10 < 4294967296
  /\ (IsOdd 10 = true \/ 10 <= 2147483653)
  /\ 2 * 10 <= Z.of_nat (length (fresh R 20))
  /\ 2 * 10 <= Z.of_nat (length (replicate 24 (Some 7%R)))
  /\ exists l0 m0 l1 m1,
    CreateCircle2 10 (Some (fresh R 20)) true = Ran (Ok l0 m0)
    /\ CreateCircle2 10 (Some (replicate 24 (Some 7%R))) true = Ran (Ok l1 m1)
    /\ take (Z.to_nat (2 * 10)) (buf m0) = take (Z.to_nat (2 * 10)) (buf m1)
    /\ Forall (fun c => c <> None) (take (Z.to_nat (2 * 10)) (buf m0))
    /\ drop (Z.to_nat (2 * 10)) (buf m0) = drop (Z.to_nat (2 * 10)) (fresh R 20)
    /\ length (buf m0) = length (fresh R 20).
Proof.
  split; [lia|]. split; [right; lia|]. split; [simpl; lia|]. split; [simpl; lia|].
  apply (CreateCircle2_overwrites 10 true (fresh R 20) (replicate 24 (Some 7%R)));
    [lia|right; lia|simpl; lia|simpl; lia].
Defined.

Section Overrun.
Context {F : Type} {ops : FloatOps F}.


Lemma overrun_not_ok {A} (a0 : list (option F)) (a : A) m : ~ overrun a0 (Ok a m).
Proof. intros (m' & out & E & _). discriminate. Qed.

Lemma first_reads_ge (k : nat) : (2 <= k)%nat -> first_reads k = [0; 1].
Proof. intros H. unfold first_reads. apply take_ge. simpl. lia. Qed.

(** A store at the end of what was stored so far either has room or runs
    over the end of the array. *)
Lemma bind_store_or_overrun {B} (a0 : list (option F)) (out : list F) m i v
  (k : unit -> M B) :
  tracks a0 out (first_reads (length out)) [] m ->
  i = Z.of_nat (length out) ->
  (length out <= length a0)%nat ->
  (exists m', bind (store i v) k m = k tt m'
              /\ tracks a0 (out ++ [v]) (first_reads (length out)) [] m'
              /\ (length out + 1 <= length a0)%nat)
  \/ overrun a0 (bind (store i v) k m).
Proof.
  intros T Hi Hle.
  destruct (decide (length out < length a0)%nat) as [Hlt|Hge].
  - left. destruct (store_tracks a0 out _ [] m i v T Hi Hlt) as (m' & E & T').
    exists m'. split; [|split; [exact T'|lia]].
    unfold bind. rewrite E. reflexivity.
  - right. assert (Heq : length out = length a0) by lia.
    exists m, out. split; [|split; [rewrite <- Heq; exact T|exact Heq]].
    unfold bind. rewrite (store_out_of_bounds a0 out _ [] m i v T Hle) by lia.
    f_equal. f_equal. lia.
Qed.

(** The same once the first point has been read back. *)
Lemma bind_store_or_overrun_after {B} (a0 : list (option F)) (out : list F) m i v
  (k : unit -> M B) :
  tracks a0 out [0; 1] [] m ->
  (2 <= length out)%nat ->
  i = Z.of_nat (length out) ->
  (length out <= length a0)%nat ->
  (exists m', bind (store i v) k m = k tt m'
              /\ tracks a0 (out ++ [v]) [0; 1] [] m'
              /\ (length out + 1 <= length a0)%nat)
  \/ overrun a0 (bind (store i v) k m).
Proof.
  intros T H2 Hi Hle.
  rewrite <- (first_reads_ge (length out) H2) in T |- *.
  apply bind_store_or_overrun; assumption.
Qed.

Lemma store4_or_overrun (a0 : list (option F)) (out : list F) m ai v1 v2 v3 v4
  (l' : @locals F) :
  tracks a0 out [0; 1] [] m ->
  (2 <= length out)%nat ->
  ai = Z.of_nat (length out) ->
  (length out <= length a0)%nat ->
  ai + 4 < 18446744073709551616 ->
  (exists m',
     bind (store ai v1) (fun _ =>
     bind (store (wrap64 (ai + 1)) v2) (fun _ =>
     bind (store (wrap64 (ai + 2)) v3) (fun _ =>
     bind (store (wrap64 (ai + 3)) v4) (fun _ => ret l')))) m = Ok l' m'
     /\ tracks a0 (out ++ [v1; v2; v3; v4]) [0; 1] [] m'
     /\ (length out + 4 <= length a0)%nat)
  \/ overrun a0
       (bind (store ai v1) (fun _ =>
        bind (store (wrap64 (ai + 1)) v2) (fun _ =>
        bind (store (wrap64 (ai + 2)) v3) (fun _ =>
        bind (store (wrap64 (ai + 3)) v4) (fun _ => ret l')))) m).
Proof.
  intros T H2 Hai Hle Hmax. rewrite !wrap64_small by lia.
  destruct (bind_store_or_overrun_after a0 out m ai v1
              (fun _ => bind (store (ai + 1) v2) (fun _ =>
                        bind (store (ai + 2) v3) (fun _ =>
                        bind (store (ai + 3) v4) (fun _ => ret l')))) T H2 Hai Hle)
    as [(m1 & E1 & T1 & L1)|Hov]; [|right; exact Hov].
  rewrite E1.
  destruct (bind_store_or_overrun_after a0 _ m1 (ai + 1) v2
              (fun _ => bind (store (ai + 2) v3) (fun _ =>
                        bind (store (ai + 3) v4) (fun _ => ret l'))) T1
              ltac:(rewrite length_app; simpl; lia)
              ltac:(rewrite length_app; simpl; lia)
              ltac:(rewrite length_app; simpl; lia))
    as [(m2 & E2 & T2 & L2)|Hov]; [|right; exact Hov].
  rewrite E2.
  destruct (bind_store_or_overrun_after a0 _ m2 (ai + 2) v3
              (fun _ => bind (store (ai + 3) v4) (fun _ => ret l')) T2
              ltac:(rewrite !length_app; simpl; lia)
              ltac:(rewrite !length_app; simpl; lia)
              ltac:(rewrite !length_app in *; simpl in *; lia))
    as [(m3 & E3 & T3 & L3)|Hov]; [|right; exact Hov].
  rewrite E3.
  destruct (bind_store_or_overrun_after a0 _ m3 (ai + 3) v4 (fun _ => ret l') T3
              ltac:(rewrite !length_app; simpl; lia)
              ltac:(rewrite !length_app; simpl; lia)
              ltac:(rewrite !length_app in *; simpl in *; lia))
    as [(m4 & E4 & T4 & L4)|Hov]; [|right; exact Hov].
  rewrite E4. left. exists m4. split; [reflexivity|].
  rewrite <- !app_assoc in T4. split; [exact T4|].
  rewrite !length_app in L4. simpl in L4. lia.
Qed.

(** Rule for a counting loop whose body either keeps the invariant or ends
    the run in a way the loop passes on. *)
Lemma for_up_inv_or (Inv : nat -> @locals F -> machine -> Prop)
  (Bad : result locals -> Prop) body (K : nat) :
  (forall l m, ~ Bad (Ok l m)) ->
  (forall k l m, (k < K)%nat -> Inv k l m ->
     (exists l' m', body l m = Ok l' m' /\ Inv (S k) l' m') \/ Bad (body l m)) ->
  forall d k l m, (k + d = K)%nat -> Inv k l m ->
    (exists l' m',
       for_up body (Z.of_nat K) (Z.of_nat k) l m = Ok l' m' /\ Inv K l' m')
    \/ Bad (for_up body (Z.of_nat K) (Z.of_nat k) l m).
Proof.
  intros Hok Hbody. induction d as [|d IH]; intros k l m Hk HI.
  - rewrite for_up_step. destruct (Z_lt_dec _ _) as [Hlt|_]; [lia|].
    left. replace K with k by lia. eauto.
  - rewrite for_up_step. destruct (Z_lt_dec _ _) as [_|Hge]; [|lia].
    destruct (Hbody k l m ltac:(lia) HI) as [(l' & m' & E & HI')|HB].
    + rewrite E. replace (Z.of_nat k + 1) with (Z.of_nat (S k)) by lia.
      apply IH; [lia|assumption].
    + destruct (body l m) as [l' m'|u m'] eqn:E; [|right; exact HB].
      exfalso. eapply Hok. exact HB.
Qed.

Lemma body_odd_or_overrun c s (a0 : list (option F)) pts p m :
  tracks a0 (flatten pts) [0; 1] [] m ->
  (1 <= length pts)%nat ->
  (2 * length pts <= length a0)%nat ->
  Z.of_nat (length pts) < 8589934592 ->
  (exists m',
     body_odd c s (frame p (2 * Z.of_nat (length pts))) m
     = Ok (frame (rot c s p) (2 * Z.of_nat (length pts) + 4)) m'
     /\ tracks a0 (flatten (pts ++ [rot c s p; mirror_lr (rot c s p)])) [0; 1] [] m'
     /\ (2 * length pts + 4 <= length a0)%nat)
  \/ overrun a0 (body_odd c s (frame p (2 * Z.of_nat (length pts))) m).
Proof.
  intros T H1 Hlen Hmax.
  unfold body_odd. rewrite rotate_frame. cbv zeta. simpl arrayIndex.
  rewrite (wrap64_small (_ + 4)) by lia.
  rewrite flatten_app. simpl flatten.
  pose proof (flatten_length pts) as Hfl.
  destruct (store4_or_overrun a0 (flatten pts) m (2 * Z.of_nat (length pts))
              (rot c s p).1 (rot c s p).2 (fneg (rot c s p).1) (rot c s p).2
              (frame (rot c s p) (2 * Z.of_nat (length pts) + 4)) T
              ltac:(lia) ltac:(lia) ltac:(lia) ltac:(lia))
    as [(m' & E & T' & L)|Hov]; [left|right; exact Hov].
  exists m'. split; [exact E|]. split; [exact T'|lia].
Qed.

Lemma body_even_or_overrun c s (a0 : list (option F)) pts p m :
  tracks a0 (flatten pts) [0; 1] [] m ->
  (1 <= length pts)%nat ->
  (2 * length pts <= length a0)%nat ->
  Z.of_nat (length pts) < 8589934592 ->
  (exists m',
     body_even c s (frame p (2 * Z.of_nat (length pts))) m
     = Ok (frame (rot c s p) (2 * Z.of_nat (length pts) + 4)) m'
     /\ tracks a0 (flatten (pts ++ [rot c s p; mirror_tb (rot c s p)])) [0; 1] [] m'
     /\ (2 * length pts + 4 <= length a0)%nat)
  \/ overrun a0 (body_even c s (frame p (2 * Z.of_nat (length pts))) m).
Proof.
  intros T H1 Hlen Hmax.
  unfold body_even. rewrite rotate_frame. cbv zeta. simpl arrayIndex.
  rewrite (wrap64_small (_ + 4)) by lia.
  rewrite flatten_app. simpl flatten.
  pose proof (flatten_length pts) as Hfl.
  destruct (store4_or_overrun a0 (flatten pts) m (2 * Z.of_nat (length pts))
              (rot c s p).1 (rot c s p).2 (rot c s p).1 (fneg (rot c s p).2)
              (frame (rot c s p) (2 * Z.of_nat (length pts) + 4)) T
              ltac:(lia) ltac:(lia) ltac:(lia) ltac:(lia))
    as [(m' & E & T' & L)|Hov]; [left|right; exact Hov].
  exists m'. split; [exact E|]. split; [exact T'|lia].
Qed.

Lemma odd_loop_or_overrun c s (a0 : list (option F)) (K : nat) m :
  Z.of_nat K < 4294967296 ->
  (2 <= length a0)%nat ->
  tracks a0 (flatten (odd_points c s 0)) [0; 1] [] m ->
  (exists m',
     for_up (body_odd c s) (Z.of_nat K) 0 (Locals f0 f1 2) m
     = Ok (frame (rot_n K c s top) (2 + 4 * Z.of_nat K)) m'
     /\ tracks a0 (flatten (odd_points c s K)) [0; 1] [] m'
     /\ (2 + 4 * K <= length a0)%nat)
  \/ overrun a0 (for_up (body_odd c s) (Z.of_nat K) 0 (Locals f0 f1 2) m).
Proof.
  intros HK H2 T.
  pose (Inv := fun (k : nat) (l : @locals F) (m : machine) =>
    l = frame (rot_n k c s top) (2 + 4 * Z.of_nat k)
    /\ tracks a0 (flatten (odd_points c s k)) [0; 1] [] m
    /\ (2 + 4 * k <= length a0)%nat).
  destruct (for_up_inv_or Inv (overrun a0) (body_odd c s) K) with (d := K) (k := O)
    (l := Locals f0 f1 2) (m := m) as [(l' & m' & E & -> & T' & L)|Hov].
  - intros l m1. apply overrun_not_ok.
  - intros k l m1 Hk (-> & T1 & L1).
    pose proof (body_odd_or_overrun c s a0 (odd_points c s k) (rot_n k c s top) m1 T1) as H.
    rewrite odd_points_length in H.
    replace (2 * Z.of_nat (1 + 2 * k)) with (2 + 4 * Z.of_nat k) in H by lia.
    destruct H as [(m2 & E & T2 & L2)|Hov]; [lia|lia|lia| |right; exact Hov].
    left. do 2 eexists. split; [exact E|]. split; [|split].
    + simpl rot_n. f_equal. lia.
    + rewrite odd_points_S. exact T2.
    + lia.
  - lia.
  - split; [reflexivity|]. split; [exact T|lia].
  - left. exists m'. split; [exact E|]. split; [exact T'|exact L].
  - right. exact Hov.
Qed.

Lemma even_loop_or_overrun c s (a0 : list (option F)) (K : nat) m :
  Z.of_nat K < 4294967296 ->
  (2 <= length a0)%nat ->
  tracks a0 (flatten (even_points c s 0)) [0; 1] [] m ->
  (exists m',
     for_up (body_even c s) (Z.of_nat K) 0 (Locals f1 f0 2) m
     = Ok (frame (rot_n K c s rightmost) (2 + 4 * Z.of_nat K)) m'
     /\ tracks a0 (flatten (even_points c s K)) [0; 1] [] m'
     /\ (2 + 4 * K <= length a0)%nat)
  \/ overrun a0 (for_up (body_even c s) (Z.of_nat K) 0 (Locals f1 f0 2) m).
Proof.
  intros HK H2 T.
  pose (Inv := fun (k : nat) (l : @locals F) (m : machine) =>
    l = frame (rot_n k c s rightmost) (2 + 4 * Z.of_nat k)
    /\ tracks a0 (flatten (even_points c s k)) [0; 1] [] m
    /\ (2 + 4 * k <= length a0)%nat).
  destruct (for_up_inv_or Inv (overrun a0) (body_even c s) K) with (d := K) (k := O)
    (l := Locals f1 f0 2) (m := m) as [(l' & m' & E & -> & T' & L)|Hov].
  - intros l m1. apply overrun_not_ok.
  - intros k l m1 Hk (-> & T1 & L1).
    pose proof (body_even_or_overrun c s a0 (even_points c s k)
                  (rot_n k c s rightmost) m1 T1) as H.
    rewrite even_points_length in H.
    replace (2 * Z.of_nat (1 + 2 * k)) with (2 + 4 * Z.of_nat k) in H by lia.
    destruct H as [(m2 & E & T2 & L2)|Hov]; [lia|lia|lia| |right; exact Hov].
    left. do 2 eexists. split; [exact E|]. split; [|split].
    + simpl rot_n. f_equal. lia.
    + rewrite even_points_S. exact T2.
    + lia.
  - lia.
  - split; [reflexivity|]. split; [exact T|lia].
  - left. exists m'. split; [exact E|]. split; [exact T'|exact L].
  - right. exact Hov.
Qed.

End Overrun.

Section Short.
Context {F : Type} {ops : FloatOps F}.

Lemma overrun_full {A} (a0 : list (option F)) (r : result A) :
  overrun a0 r ->
  exists m,
    r = Undef (OutOfBounds (Z.of_nat (length a0))) m
    /\ fst <$> write_log (trace m) = Z.of_nat <$> seq 0 (length a0)
    /\ Forall (fun c => c <> None) (buf m)
    /\ read_log (trace m) = first_reads (length a0)
    /\ assert_log (trace m) = [].
Proof.
  intros (m & out & E & T & L). exists m. split; [exact E|].
  split; [|split; [|split]].
  - rewrite (tracks_write_indices _ _ _ _ _ T), L. reflexivity.
  - rewrite (tracks_buf _ _ _ _ _ T). unfold filled.
    rewrite L, drop_all, app_nil_r.
    apply Forall_fmap, Forall_forall. intros x _. discriminate.
  - apply (tracks_reads _ _ _ _ _ T).
  - apply (tracks_asserts _ _ _ _ _ T).
Qed.

Lemma bind_overrun {A B} (a0 : list (option F)) (c : M A) (k : A -> M B) m :
  overrun a0 (c m) -> overrun a0 (bind c k m).
Proof.
  intros (m' & out & E & T & L). unfold bind. rewrite E.
  exists m', out. split; [reflexivity|]. split; assumption.
Qed.

(** The first point of a branch, stored at the indices 0 and 1 and read
    back: on an array of fewer than two scalars the first or the second
    store is out of bounds. *)
Lemma first_point_or_overrun {B} (a0 : list (option F)) v1 v2 (k : locals -> M B) :
  (exists m', bind (first_point v1 v2) k (Machine a0 []) = k (Locals v1 v2 2) m'
              /\ tracks a0 [v1; v2] [0; 1] [] m' /\ (2 <= length a0)%nat)
  \/ overrun a0 (bind (first_point v1 v2) k (Machine a0 [])).
Proof.
  destruct (decide (2 <= length a0)%nat) as [H2|H2].
  - left. destruct (first_point_tracks v1 v2 a0 H2) as (m & E & T).
    exists m. split; [|split; [exact T|exact H2]].
    unfold bind. rewrite E. reflexivity.
  - right. apply bind_overrun. unfold first_point, store_load.
    destruct (bind_store_or_overrun a0 [] (Machine a0 []) 0 v1
                (fun _ => load 0) (tracks_start a0) eq_refl ltac:(simpl; lia))
      as [(m1 & E1 & T1 & L1)|Hov]; [|apply bind_overrun; exact Hov].
    destruct (load_tracks a0 _ _ _ m1 0 0%nat v1 T1 eq_refl ltac:(simpl in *; lia)
                eq_refl) as (m2 & E2 & T2).
    cbv beta in E1. rewrite E2 in E1.
    rewrite (bind_ok _ _ _ _ _ E1). apply bind_overrun.
    destruct (bind_store_or_overrun a0 [v1] m2 1 v2 (fun _ => load 1) T2 eq_refl
                ltac:(simpl in *; lia)) as [(m3 & E3 & T3 & L3)|Hov];
      [simpl in L3; lia|exact Hov].
Qed.

Lemma last_point_or_overrun n (a0 : list (option F)) pts p m :
  tracks a0 (flatten pts) [0; 1] [] m ->
  (1 <= length pts)%nat ->
  (2 * length pts <= length a0)%nat ->
  Z.of_nat (length pts) < 8589934592 ->
  (exists l' m', last_point n (frame p (2 * Z.of_nat (length pts))) m = Ok l' m'
                 /\ (2 * length pts + 2 <= length a0)%nat)
  \/ overrun a0 (last_point n (frame p (2 * Z.of_nat (length pts))) m).
Proof.
  intros T H1 Hlen Hmax. unfold last_point. simpl arrayIndex.
  rewrite (wrap64_small (_ + 1)) by lia.
  pose proof (flatten_length pts) as Hfl.
  set (k := fun _ : unit =>
         bind (assert_ (wrap64 (2 * Z.of_nat (length pts) + 2) =? wrap32 (n * 2)))
           (fun _ => ret (frame p (2 * Z.of_nat (length pts))))).
  destruct (bind_store_or_overrun_after a0 _ m (2 * Z.of_nat (length pts)) (fneg f1)
              (fun _ => bind (store (2 * Z.of_nat (length pts) + 1) f0) k) T
              ltac:(lia) ltac:(lia) ltac:(lia)) as [(m1 & E1 & T1 & L1)|Hov];
    [|right; exact Hov].
  rewrite E1.
  destruct (bind_store_or_overrun_after a0 _ m1 (2 * Z.of_nat (length pts) + 1) f0 k T1
              ltac:(rewrite length_app; simpl; lia)
              ltac:(rewrite length_app; simpl; lia)
              ltac:(rewrite length_app; simpl; lia)) as [(m2 & E2 & T2 & L2)|Hov];
    [|right; exact Hov].
  rewrite E2. left. unfold k, bind, assert_, ret.
  do 2 eexists. split; [reflexivity|].
  rewrite length_app in L2. simpl in L2. lia.
Qed.

(** The run of [CreateCircle] on an array too short for the [2n] scalars. *)
Lemma CreateCircle_overruns (n : Z) (cw : bool) (a0 : list (option F)) :
  1 <= n < 4294967296 ->
  Z.of_nat (length a0) < 2 * n ->
  exists r, CreateCircle n (Some a0) cw = Ran r /\ overrun a0 r.
Proof.
  intros Hn Hlen. unfold CreateCircle. eexists. split; [reflexivity|].
  set (c := fcos (angle_of n cw)). set (s := fsin (angle_of n cw)). cbv zeta.
  destruct (IsOdd n) eqn:E.
  - apply IsOdd_true in E. unfold odd_branch.
    destruct (first_point_or_overrun a0 f0 f1
                (fun l0 => bind (for_up (body_odd c s) (n / 2) 0 l0)
                   (fun l => bind (assert_ (arrayIndex l =? wrap32 (n * 2)))
                               (fun _ => ret l))))
      as [(m1 & E1 & T1 & L1)|Hov]; [|exact Hov].
    rewrite E1. apply bind_overrun.
    rewrite <- (Z2Nat.id (n / 2)) by lia.
    destruct (odd_loop_or_overrun c s a0 (Z.to_nat (n / 2)) m1)
      as [(m2 & E2 & T2 & L2)|Hov]; [lia|lia|exact T1| |exact Hov].
    exfalso. lia.
  - apply IsOdd_false in E.
    destruct (first_point_or_overrun a0 f1 f0
                (fun l0 => bind (for_up (body_even c s) (wrap32 (n / 2 - 1)) 0 l0)
                            (fun l => last_point n l)))
      as [(m1 & E1 & T1 & L1)|Hov]; [|exact Hov].
    rewrite E1. rewrite wrap32_small by lia.
    rewrite <- (Z2Nat.id (n / 2 - 1)) by lia.
    destruct (even_loop_or_overrun c s a0 (Z.to_nat (n / 2 - 1)) m1)
      as [(m2 & E2 & T2 & L2)|Hov];
      [lia|lia|exact T1| |apply bind_overrun; exact Hov].
    unfold bind at 1. rewrite E2.
    pose proof (last_point_or_overrun n a0 _
                  (rot_n (Z.to_nat (n / 2 - 1)) c s rightmost) m2 T2) as H.
    rewrite even_points_length in H.
    replace (2 * Z.of_nat (1 + 2 * Z.to_nat (n / 2 - 1)))
      with (2 + 4 * Z.of_nat (Z.to_nat (n / 2 - 1))) in H by lia.
    destruct H as [(l' & m3 & E3 & L3)|Hov]; [lia|lia|lia| |exact Hov].
    exfalso. lia.
Qed.

(** X8.  [CreateCircle] on an array too short for the [2n] scalars fills it to
    its end and stores the next scalar past the end; it has read the first
    point back, as far as the array goes, and evaluated no assertion. *)
Theorem CreateCircle_short_array (n : Z) (cw : bool) (a0 : list (option F)) :
  1 <= n < 4294967296 ->
  Z.of_nat (length a0) < 2 * n ->
  exists m,
    CreateCircle n (Some a0) cw = Ran (Undef (OutOfBounds (Z.of_nat (length a0))) m)
    /\ fst <$> write_log (trace m) = Z.of_nat <$> seq 0 (length a0)
    /\ Forall (fun c => c <> None) (buf m)
    /\ read_log (trace m) = first_reads (length a0)
    /\ assert_log (trace m) = [].
Proof.
  intros Hn Hlen.
  destruct (CreateCircle_overruns n cw a0 Hn Hlen) as (r & E & Hov).
  destruct (overrun_full a0 r Hov) as (m & -> & Hw & Hb & Hr & Ha).
  exists m. split; [exact E|]. repeat split; assumption.
Qed.

End Short.

Lemma CreateCircle_short_array_witness :
  1 <= 5 < 4294967296
  /\ Z.of_nat (length (fresh R 7)) < 2 * 5
  /\ exists m,
    CreateCircle 5 (Some (fresh R 7)) true
    = Ran (Undef (OutOfBounds (Z.of_nat (length (fresh R 7)))) m)
    /\ fst <$> write_log (trace m) = Z.of_nat <$> seq 0 (length (fresh R 7))
    /\ Forall (fun c => c <> None) (buf m)
    /\ read_log (trace m) = first_reads (length (fresh R 7))
    /\ assert_log (trace m) = [].
Proof.
  split; [lia|]. split; [simpl; lia|].
  apply (CreateCircle_short_array 5 true (fresh R 7)); [lia|simpl; lia].
Defined.

Section DriverProofs.
Context {F : Type} {ops : FloatOps F}.

Lemma print_points_step bound i (out : list (@printed F)) m :
  print_points bound i out m =
  if Z_lt_dec i bound
  then match load i m with
       | Ok x m1 =>
         match load (i + 1) m1 with
         | Ok y m2 => print_points bound (i + 2) (out ++ [PointLine x y]) m2
         | Undef u _ => (out, Some u)
         end
       | Undef u _ => (out, Some u)
       end
  else (out, None).
Proof.
  rewrite (print_points_equation_1 bound i out m).
  destruct (Z_lt_dec i bound); simpl; [|reflexivity].
  destruct (load i m) as [x m1|]; simpl; [|reflexivity].
  destruct (load (i + 1) m1); reflexivity.
Qed.

(** A load of a scalar of the filled part of the array. *)
Lemma load_filled (a0 : list (option F)) (out : list F) m k v :
  buf m = filled a0 out ->
  (length out <= length a0)%nat ->
  out !! k = Some v ->
  exists m', load (Z.of_nat k) m = Ok v m' /\ buf m' = buf m.
Proof.
  intros Hb Hle Hk.
  pose proof (lookup_lt_Some _ _ _ Hk) as Hlt.
  unfold load, in_bounds. rewrite Hb, filled_length by lia.
  destruct (0 <=? Z.of_nat k) eqn:E1; [|lia].
  destruct (Z.of_nat k <? Z.of_nat (length a0)) eqn:E2; [|lia].
  simpl. rewrite Nat2Z.id, (filled_lookup _ _ _ _ Hk).
  eexists; split; reflexivity.
Qed.

(** The printing loop over an array that holds the points [pts]. *)
Lemma print_points_filled (a0 : list (option F)) (pts : list (@point F)) :
  (2 * length pts <= length a0)%nat ->
  forall d k out m,
    (k + d = length pts)%nat ->
    buf m = filled a0 (flatten pts) ->
    print_points (2 * Z.of_nat (length pts)) (2 * Z.of_nat k) out m
    = (out ++ (line_of <$> drop k pts), None).
Proof.
  intros Hle. pose proof (flatten_length pts) as Hfl.
  induction d as [|d IH]; intros k out m Hk Hb.
  - rewrite print_points_step. destruct (Z_lt_dec _ _) as [H|_]; [lia|].
    rewrite drop_ge by lia. simpl. now rewrite app_nil_r.
  - rewrite print_points_step. destruct (Z_lt_dec _ _) as [_|H]; [|lia].
    destruct (lookup_lt_is_Some_2 pts k ltac:(lia)) as [p Hp].
    destruct (flatten_lookup pts k p Hp) as [Hx Hy].
    destruct (load_filled a0 (flatten pts) m (2 * k) p.1 Hb ltac:(lia) Hx)
      as (m1 & E1 & B1).
    replace (2 * Z.of_nat k) with (Z.of_nat (2 * k)) by lia.
    rewrite E1.
    destruct (load_filled a0 (flatten pts) m1 (2 * k + 1) p.2 (eq_trans B1 Hb)
                ltac:(lia) Hy) as (m2 & E2 & B2).
    replace (Z.of_nat (2 * k) + 1) with (Z.of_nat (2 * k + 1)) by lia.
    rewrite E2.
    replace (Z.of_nat (2 * k) + 2) with (2 * Z.of_nat (S k)) by lia.
    rewrite (IH (S k) _ m2 ltac:(lia) (eq_trans B2 (eq_trans B1 Hb))).
    rewrite (drop_S _ _ _ Hp). rewrite fmap_cons, <- app_assoc. reflexivity.
Qed.

(** A log fails when one of its assertions does. *)
Lemma failed_assertion_log (t : list (@event F)) :
  failed_assertion t = existsb negb (assert_log t).
Proof.
  induction t as [|[i v|i|[]] t IH]; simpl; rewrite ?IH; reflexivity.
Qed.

Lemma main_prints (ULONG_MOD heap n : Z) (arg : option Z) :
  n = match arg with Some v => v | None => 5 end ->
  1 <= n < 4294967296 ->
  2 * n < ULONG_MOD ->
  2 * n <= heap ->
  main ULONG_MOD heap arg
  = (if n <? 2147483648
     then (Heading n :: (line_of <$> half_points (F:=F) n true), Exit 0)
     else ([Heading n], Abort)).
Proof.
  intros Hn Hr HU Hh. unfold main. rewrite <- Hn. cbv zeta.
  rewrite (Z.mod_small (n * 2)) by lia.
  destruct (heap <? n * 2) eqn:E; [lia|].
  rewrite wrap32_small by lia.
  destruct (CreateCircle_runs n true (fresh F (n * 2)) Hr
              ltac:(rewrite length_fresh; lia)) as (l & m & Er & _ & T).
  rewrite Er.
  rewrite failed_assertion_log, (tracks_asserts _ _ _ _ _ T). simpl existsb.
  rewrite orb_false_r.
  destruct (n <? 2147483648); simpl negb; cbv iota; [|reflexivity].
  pose proof (half_points_length (F:=F) n true ltac:(lia)) as Hl.
  pose proof (print_points_filled (fresh F (n * 2)) (half_points n true)
                ltac:(pose proof (length_fresh F (n * 2)); lia)
                (length (half_points (F:=F) n true)) 0%nat [Heading n] m
                ltac:(lia) (tracks_buf _ _ _ _ _ T)) as HP.
  replace (2 * Z.of_nat (length (half_points (F:=F) n true))) with (n * 2) in HP by lia.
  change (2 * Z.of_nat 0) with 0 in HP. rewrite HP. rewrite drop_0. reflexivity.
Qed.

(** X12.  [main] for a count whose double fits in [unsigned long].  Below 2^31
    it prints the heading, then one line for each point [CreateCircle] emits
    clockwise, in the order of emission, [n] lines, and returns 0.  From 2^31
    on the assertion of [CreateCircle] fails: the program aborts after the
    heading and prints no point. *)
Theorem main_prints_the_points (ULONG_MOD heap n : Z) (arg : option Z) :
  n = match arg with Some v => v | None => 5 end ->
  1 <= n < 4294967296 ->
  2 * n < ULONG_MOD ->
  2 * n <= heap ->
  main ULONG_MOD heap arg
  = (if n <? 2147483648
     then (Heading n ::
             (line_of <$>
                emitted (CreateCircle (F:=F) n (Some (fresh F (2 * n))) true)),
           Exit 0)
     else ([Heading n], Abort))
  /\ Z.of_nat (length (main ULONG_MOD heap arg).1)
     = (if n <? 2147483648 then 1 + n else 1).
Proof.
  intros Hn Hr HU Hh.
  rewrite (main_prints ULONG_MOD heap n arg Hn Hr HU Hh).
  rewrite CreateCircle_emitted by (try rewrite length_fresh; lia).
  destruct (n <? 2147483648); split; try reflexivity.
  simpl. rewrite length_fmap.
  pose proof (half_points_length (F:=F) n true ltac:(lia)). lia.
Qed.

(** X13.  [main] for the count 0 (the argument 0, or one [strtoul] cannot read):
    the array has no element and [CreateCircle] stores at its index 0. *)
Theorem main_zero_points (ULONG_MOD heap : Z) :
  0 <= heap ->
  main (F:=F) ULONG_MOD heap (Some 0) = ([Heading 0], Crash (OutOfBounds 0)).
Proof.
  intros Hh. unfold main. cbv zeta.
  change (0 * 2) with 0. rewrite Zmod_0_l.
  destruct (heap <? 0) eqn:E; [lia|]. reflexivity.
Qed.

(** X14.  [main] with a 32-bit [unsigned long] for a count from 2^31 on: the size
    of the array wraps, and [CreateCircle] fills the array and stores past
    its end. *)
Theorem main_allocation_wraps (heap n : Z) :
  2147483648 <= n < 4294967296 ->
  2 * n - 4294967296 <= heap ->
  main (F:=F) 4294967296 heap (Some n)
  = ([Heading n], Crash (OutOfBounds (2 * n - 4294967296))).
Proof.
  intros Hn Hh. unfold main. cbv zeta.
  assert (Hsize : (n * 2) mod 4294967296 = 2 * n - 4294967296) by lia.
  rewrite Hsize.
  destruct (heap <? 2 * n - 4294967296) eqn:E; [lia|].
  rewrite wrap32_small by lia.
  pose proof (length_fresh F (2 * n - 4294967296) ltac:(lia)) as Hl.
  destruct (CreateCircle_overruns n true (fresh F (2 * n - 4294967296)) ltac:(lia)
              ltac:(lia)) as (r & Er & m & out & -> & _).
  rewrite Er, Hl. reflexivity.
Qed.

End DriverProofs.

Lemma main_prints_the_points_witness :
  5 = match @None Z with Some v => v | None => 5 end
  /\ 1 <= 5 < 4294967296
  /\ 2 * 5 < 4294967296
  /\ 2 * 5 <= 1000
  /\ main 4294967296 1000 None
     = (if 5 <? 2147483648
        then (Heading 5 ::
                (line_of <$>
                   emitted (CreateCircle (F:=R) 5 (Some (fresh R (2 * 5))) true)),
              Exit 0)
        else ([Heading 5], Abort))
  /\ Z.of_nat (length (main (F:=R) 4294967296 1000 None).1)
     = (if 5 <? 2147483648 then 1 + 5 else 1).
Proof.
  split; [reflexivity|]. split; [lia|]. split; [lia|]. split; [lia|].
  apply (main_prints_the_points (F:=R) 4294967296 1000 5 None); [reflexivity|lia|lia|lia].
Defined.

Lemma main_zero_points_witness :
  0 <= 1000
  /\ main (F:=R) 4294967296 1000 (Some 0) = ([Heading 0], Crash (OutOfBounds 0)).
Proof.
  split; [lia|]. apply (main_zero_points (F:=R) 4294967296 1000). lia.
Defined.

Lemma main_allocation_wraps_witness :
  2147483648 <= 2147483651 < 4294967296
  /\ 2 * 2147483651 - 4294967296 <= 1000
  /\ main (F:=R) 4294967296 1000 (Some 2147483651)
     = ([Heading 2147483651], Crash (OutOfBounds (2 * 2147483651 - 4294967296))).
Proof.
  split; [lia|]. split; [lia|].
  apply (main_allocation_wraps (F:=R) 1000 2147483651); lia.
Defined.

(** X11.  [IsOdd] tells the parity of an unsigned number; of a signed number it
    says "odd" only when the number is odd and positive. *)
Theorem IsOdd_by_signedness (number : Z) :
  IsOdd number = Z.odd number
  /\ IsOdd_signed number = (0 <? number) && Z.odd number.
Proof.
  pose proof (Zmod_odd number) as Hm.
  unfold IsOdd, IsOdd_signed. split.
  - destruct (Z.odd number); rewrite Hm; reflexivity.
  - destruct (Z.odd number); destruct (0 <? number) eqn:Hp; simpl.
    + apply Z.eqb_eq. lia.
    + apply Z.eqb_neq. lia.
    + apply Z.eqb_neq. lia.
    + apply Z.eqb_neq. lia.
Qed.

Section Zero.
Context {F : Type} {ops : FloatOps F}.

(** The first point and the first loop of the even branch on an array too
    short for the stores of the loop. *)
Lemma even_prefix_overrun {B} c s (a0 : list (option F)) (b : Z)
  (k : locals -> M B) :
  0 <= b < 4294967296 ->
  Z.of_nat (length a0) < 2 + 4 * b ->
  overrun a0
    (bind (first_point f1 f0) (fun l =>
       bind (for_up (body_even c s) b 0 l) k)
       (Machine a0 [])).
Proof.
  intros Hb Hlen.
  destruct (first_point_or_overrun a0 f1 f0
              (fun l => bind (for_up (body_even c s) b 0 l) k))
    as [(m1 & E1 & T1 & L1)|Hov]; [|exact Hov].
  rewrite E1. apply bind_overrun.
  rewrite <- (Z2Nat.id b) by lia.
  destruct (even_loop_or_overrun c s a0 (Z.to_nat b) m1)
    as [(m2 & E2 & T2 & L2)|Hov]; [lia|lia|exact T1| |exact Hov].
  exfalso. lia.
Qed.

(** X15.  [CreateCircle] for the count 0 and an array of fewer than
    2 + 4 * (2^32 - 1) scalars: the bound [0 - 1] of the loop wraps, the call
    fills the array and stores past its end. *)
Theorem CreateCircle_zero_count_overruns (cw : bool) (a0 : list (option F)) :
  Z.of_nat (length a0) < 17179869182 ->
  wrap32 (0 / 2 - 1) = 4294967295
  /\ exists m,
       CreateCircle 0 (Some a0) cw
       = Ran (Undef (OutOfBounds (Z.of_nat (length a0))) m)
       /\ fst <$> write_log (trace m) = Z.of_nat <$> seq 0 (length a0)
       /\ Forall (fun c => c <> None) (buf m).
Proof.
  intros Hlen. split; [reflexivity|].
  cut (overrun a0 (match CreateCircle 0 (Some a0) cw with
                   | Ran r => r
                   | Throw _ => Ok (Locals f0 f0 0) (Machine a0 [])
                   end)).
  { intros H. apply overrun_full in H. destruct H as (m & E & H1 & H2 & _).
    exists m. split; [|split; assumption]. unfold CreateCircle in *. f_equal. exact E. }
  unfold CreateCircle. cbv zeta.
  change (IsOdd 0) with false. cbv iota.
  change (wrap32 (0 / 2 - 1)) with 4294967295.
  apply even_prefix_overrun; lia.
Qed.

End Zero.

Lemma CreateCircle_zero_count_overruns_witness :
  Z.of_nat (length (fresh R 6)) < 17179869182
  /\ wrap32 (0 / 2 - 1) = 4294967295
  /\ exists m,
       CreateCircle 0 (Some (fresh R 6)) true
       = Ran (Undef (OutOfBounds (Z.of_nat (length (fresh R 6)))) m)
       /\ fst <$> write_log (trace m) = Z.of_nat <$> seq 0 (length (fresh R 6))
       /\ Forall (fun c => c <> None) (buf m).
Proof.
  split; [simpl; lia|].
  apply (CreateCircle_zero_count_overruns true (fresh R 6)). simpl; lia.
Defined.

Lemma CreateCircle2_large_even_counts_witness :
  IsOdd 2147483654 = false
  /\ 2147483654 <= 2147483654 < 4294967296
  /\ 2 * 2147483654 <= Z.of_nat (length (fresh R 4294967308))
  /\ in_int ((to_int (2147483654 / 2) - 3) * 2) = false
  /\ exists m,
       CreateCircle2 2147483654 (Some (fresh R 4294967308)) true
       = Ran (Undef SignedOverflow m)
       /\ read_log (trace m) = [0; 1]
       /\ fst <$> write_log (trace m)
          = Z.of_nat <$> seq 0 (Z.to_nat (2 + 4 * (2147483654 / 2 / 2)))
       /\ 2 + 4 * (2147483654 / 2 / 2) < 2 * 2147483654.
Proof.
  assert (Hn : 2147483654 <= 2147483654 < 4294967296) by lia.
  assert (Hk : 0 <= 4294967308) by lia.
  exact (conj eq_refl (conj Hn (conj (fresh_room R 4294967308 Hk)
           (CreateCircle2_large_even_counts 2147483654 true (fresh R 4294967308)
              eq_refl Hn (fresh_room R 4294967308 Hk))))).
Defined.
